(** * webapp: access logging and panic recovery around an HTTP handler

    A shallow embedding of [serve.go] (package [webapp]) and the properties
    of its request record, formatters, panic guard, dispatcher and sinks.

    Layout of the development:
    - [strings], [fmt], [time]: the parts of the Go library that
      [serve.go] calls, restricted to what it calls them with;
    - [LogRecord], the two formatters, [App], [NewApp];
    - the wrapped handler as a program over the [ResponseWriter] interface;
    - [HandlePanic], [ServeHTTP], [AddLogger], [ErrorLogger] over a store
      of bounded channels;
    - the vocabulary of the properties, and the properties.

    [FileLogger] and [HandlerFunc], which open a file and adapt a handler,
    carry no property here and are left out. *)

From Stdlib Require Import ZArith String Ascii List Lia DecimalString.
From stdpp Require Import gmap list strings.
Import ListNotations.

Local Open Scope Z_scope.

(** ** Library: strings *)

Module strings.

(** The double quote, which the format strings of [serve.go] contain. *)
Definition dquote : string :=
  Eval cbv in String (ascii_of_nat 34) EmptyString.

(** The line feed ([\n] in a Go string literal). *)
Definition newline : string :=
  Eval cbv in String (ascii_of_nat 10) EmptyString.

Definition len (s : string) : Z := Z.of_nat (String.length s).

(** [scanLast sep i best s]: [s] is the suffix of the subject starting at
    byte offset [i]; [best] is the offset of the last match seen so far. *)
Fixpoint scanLast (sep : string) (i best : Z) (s : string) : Z :=
  let best' := if String.prefix sep s then i else best in
  match s with
  | EmptyString => best'
  | String _ s' => scanLast sep (i + 1) best' s'
  end.

(** [strings.LastIndex(s, substr)]: the offset of the last instance of
    [substr] in [s], or -1 when there is none. *)
Definition LastIndex (s substr : string) : Z := scanLast substr 0 (-1) s.

(** The slice expression [s[:n]], for [0 <= n <= len(s)]. *)
Definition slice_to (s : string) (n : Z) : string :=
  String.substring 0 (Z.to_nat n) s.

(** [s] contains the byte [c]. *)
Fixpoint contains_byte (c : ascii) (s : string) : bool :=
  match s with
  | EmptyString => false
  | String d s' => if Ascii.eqb c d then true else contains_byte c s'
  end.

End strings.

(** ** Library: fmt *)

Module fmt.

(** Decimal rendering of an integer, as the verb [%d] prints it. *)
Definition decimal (n : Z) : string := NilZero.string_of_int (Z.to_int n).

(** Dynamic values, as far as a [panic] argument is concerned: what [%v]
    prints for the value is what the guard needs. *)
Inductive any : Type :=
| AnyString (s : string)
| AnyInt (n : Z)
| AnyError (msg : string).

(** The operand list of a formatting call. *)
Inductive arg : Type :=
| Str (s : string)
| Int (n : Z)
| Val (e : any).

Definition value_text (e : any) : string :=
  match e with
  | AnyString s => s
  | AnyInt n => decimal n
  | AnyError msg => msg
  end.

Definition typeName (a : arg) : string :=
  match a with
  | Str _ | Val (AnyString _) => "string"
  | Int _ | Val (AnyInt _) => "int"
  | Val (AnyError _) => "error"
  end.

Definition operand_text (a : arg) : string :=
  match a with
  | Str s => s
  | Int n => decimal n
  | Val e => value_text e
  end.

Definition accepts (v : ascii) (a : arg) : bool :=
  match a with
  | Int _ | Val (AnyInt _) => Ascii.eqb v "d" || Ascii.eqb v "v"
  | _ => Ascii.eqb v "s" || Ascii.eqb v "v"
  end.

(** One operand under one verb.  The calls in [serve.go] always pair
    [%s] with a string, [%d] with an integer and [%v] with the recovered
    value; any other pairing prints a bad-verb notice. *)
Definition verb (v : ascii) (a : arg) : string :=
  if accepts v a then operand_text a
  else "%!" +:+ String v ("(" +:+ typeName a +:+ "=" +:+ operand_text a +:+ ")").

(** [fmt.Sprintf(format, args...)] for the verbs [%s], [%d], [%v] and the
    escape [%%].  Surplus operands, which no call in [serve.go] has, are
    dropped here (Go appends an [%!(EXTRA ...)] notice). *)
Fixpoint Sprintf (format : string) (args : list arg) : string :=
  match format with
  | EmptyString => EmptyString
  | String c rest =>
      if Ascii.eqb c "%" then
        match rest with
        | EmptyString => "%!(NOVERB)"
        | String v rest' =>
            if Ascii.eqb v "%" then String "%" (Sprintf rest' args)
            else
              match args with
              | [] => "%!" +:+ String v ("(MISSING)" +:+ Sprintf rest' [])
              | a :: args' => verb v a +:+ Sprintf rest' args'
              end
        end
      else String c (Sprintf rest args)
  end.

End fmt.

(** ** Library: time *)

Module time.

(** An instant with the zone it is displayed in: nanoseconds since the
    Unix epoch and the zone's offset in seconds east of UTC.  There is one
    clock here: the reading [Format] displays is the reading [Sub]
    subtracts. *)
Record Time : Type := mkTime { unixNano : Z; zoneOffset : Z }.

(** [time.Time{}], the zero value of the type: January 1, year 1,
    00:00:00 UTC. *)
Definition zero : Time := mkTime (-62135596800 * 1000000000) 0.

(** [time.Duration] is a signed 64-bit count of nanoseconds. *)
Definition minDuration : Z := - 2 ^ 63.
Definition maxDuration : Z := 2 ^ 63 - 1.

(** [t.Sub(u)]: the duration [t - u], replaced by the largest or the
    smallest duration when it does not fit one. *)
Definition Sub (t u : Time) : Z :=
  let d := unixNano t - unixNano u in
  if d <? minDuration then minDuration
  else if maxDuration <? d then maxDuration
  else d.

(** [d.Nanoseconds()]. *)
Definition Nanoseconds (d : Z) : Z := d.

(** Seconds since the epoch on the clock of the instant's zone. *)
Definition localSeconds (t : Time) : Z :=
  unixNano t / 1000000000 + zoneOffset t.

Definition Hour (t : Time) : Z := (localSeconds t mod 86400) / 3600.
Definition Minute (t : Time) : Z := (localSeconds t mod 3600) / 60.
Definition Second (t : Time) : Z := localSeconds t mod 60.

(** The proleptic Gregorian date of a day number (days since
    1970-01-01), by 400-year eras that start on March 1. *)
Definition civil (days : Z) : Z * Z * Z :=
  let z := days + 719468 in
  let era := z / 146097 in
  let doe := z - era * 146097 in
  let yoe := (doe - doe / 1460 + doe / 36524 - doe / 146096) / 365 in
  let doy := doe - (365 * yoe + yoe / 4 - yoe / 100) in
  let mp := (5 * doy + 2) / 153 in
  let d := doy - (153 * mp + 2) / 5 + 1 in
  let m := if mp <? 10 then mp + 3 else mp - 9 in
  let y := yoe + era * 400 + (if m <=? 2 then 1 else 0) in
  (y, m, d).

Definition Year (t : Time) : Z := fst (fst (civil (localSeconds t / 86400))).
Definition Month (t : Time) : Z := snd (fst (civil (localSeconds t / 86400))).
Definition Day (t : Time) : Z := snd (civil (localSeconds t / 86400)).

Definition shortMonthNames : list string :=
  ["Jan"; "Feb"; "Mar"; "Apr"; "May"; "Jun";
   "Jul"; "Aug"; "Sep"; "Oct"; "Nov"; "Dec"].

Definition monthAbbrev (m : Z) : string :=
  nth (Z.to_nat (m - 1)) shortMonthNames "".

(** [appendInt]: the decimal form of [x], padded with zeros on the left
    to [width] digits, after the sign if there is one. *)
Definition appendInt (x : Z) (width : nat) : string :=
  let digits := fmt.decimal (Z.abs x) in
  (if x <? 0 then "-" else "") +:+
  string_of_list_ascii (repeat "0"%char (width - String.length digits)%nat)
  +:+ digits.

(** The zone as [-0700] prints it: sign, hours, minutes. *)
Definition numTZ (t : Time) : string :=
  let zone := Z.quot (zoneOffset t) 60 in
  (if zone <? 0 then "-" else "+") +:+
  appendInt (Z.quot (Z.abs zone) 60) 2 +:+
  appendInt (Z.rem (Z.abs zone) 60) 2.

(** The layout elements that [ApacheTime] is made of. *)
Inductive std : Type :=
| stdZeroDay | stdMonth | stdLongYear | stdHour
| stdZeroMinute | stdZeroSecond | stdNumTZ.

Definition stdChunks : list (string * std) :=
  [("2006", stdLongYear); ("Jan", stdMonth); ("02", stdZeroDay);
   ("15", stdHour); ("04", stdZeroMinute); ("05", stdZeroSecond);
   ("-0700", stdNumTZ)].

(** The element the layout starts with, and its width. *)
Definition nextStdChunk (layout : string) : option (std * nat) :=
  match List.find (fun c => String.prefix (fst c) layout) stdChunks with
  | Some (text, c) => Some (c, String.length text)
  | None => None
  end.

Definition appendStd (t : Time) (c : std) : string :=
  match c with
  | stdZeroDay => appendInt (Day t) 2
  | stdMonth => monthAbbrev (Month t)
  | stdLongYear => appendInt (Year t) 4
  | stdHour => appendInt (Hour t) 2
  | stdZeroMinute => appendInt (Minute t) 2
  | stdZeroSecond => appendInt (Second t) 2
  | stdNumTZ => numTZ t
  end.

(** [skip] counts the bytes of the element being replaced that are still
    to be passed over. *)
Fixpoint formatFrom (t : Time) (skip : nat) (layout : string) : string :=
  match layout with
  | EmptyString => EmptyString
  | String c rest =>
      match skip with
      | S k => formatFrom t k rest
      | O =>
          match nextStdChunk layout with
          | Some (e, width) => appendStd t e +:+ formatFrom t (width - 1) rest
          | None => String c (formatFrom t 0 rest)
          end
      end
  end.

(** [t.Format(layout)], for layouts made of the elements above and of
    literal text. *)
Definition Format (t : Time) (layout : string) : string :=
  formatFrom t 0 layout.

End time.

(** ** Library: net/http *)

Module http.

(** The fields and accessors of [http.Request] that the dispatcher
    reads.  [Header] is the lookup [r.Header.Get]. *)
Record Request : Type := {
  Method : string;
  RequestURI : string;
  Proto : string;
  RemoteAddr : string;
  Header : string -> string
}.

Definition Referer (r : Request) : string := Header r "Referer".
Definition UserAgent (r : Request) : string := Header r "User-Agent".

Definition StatusOK : Z := 200.

(** The interface [http.ResponseWriter], over the state [W] of whatever
    implements it.  [Write] reports a byte count and an optional error,
    as [(n int, err error)]. *)
Class ResponseWriter (W : Type) : Type := {
  Write : W -> string -> W * (Z * option string);
  WriteHeader : W -> Z -> W
}.

(** What a handler does with the writer it is given: a series of calls
    on the interface, each continuing with what the call returned, ended
    by a return or by a panic.  A panic carries a value: [recover()]
    returns non-nil for every panic (a nil argument reaches it as a
    runtime error). *)
Inductive Body : Type :=
| Return
| Panic (e : fmt.any)
| DoWrite (p : string) (k : Z -> option string -> Body)
| DoWriteHeader (status : Z) (k : Body).

(** [http.HandlerFunc]: a function of the writer and the request. *)
Definition HandlerFunc : Type := Request -> Body.

(** Running a handler body against a writer: the writer afterwards and
    the value it panicked with, if it did. *)
Fixpoint exec {W : Type} `{ResponseWriter W} (b : Body) (w : W)
  : W * option fmt.any :=
  match b with
  | Return => (w, None)
  | Panic e => (w, Some e)
  | DoWrite p k =>
      let '(w', (n, err)) := Write w p in exec (k n err) w'
  | DoWriteHeader status k => exec k (WriteHeader w status)
  end.

(** The byte counts a writer reports to a handler body, in call order. *)
Fixpoint reported {W : Type} `{ResponseWriter W} (b : Body) (w : W)
  : list Z :=
  match b with
  | Return | Panic _ => []
  | DoWrite p k =>
      let '(w', (n, err)) := Write w p in n :: reported (k n err) w'
  | DoWriteHeader status k => reported k (WriteHeader w status)
  end.

(** The status codes a handler body sets, in call order. *)
Fixpoint statuses {W : Type} `{ResponseWriter W} (b : Body) (w : W)
  : list Z :=
  match b with
  | Return | Panic _ => []
  | DoWrite p k =>
      let '(w', (n, err)) := Write w p in statuses (k n err) w'
  | DoWriteHeader status k => status :: statuses k (WriteHeader w status)
  end.

End http.

(** ** serve.go *)

Definition errorPageShort : string :=
  "<html><body><h1>500 Internal server error</h1></body></html>".

Definition errorPageDetailed : string :=
  "<html><body><h1>500 Internal server error</h1><p>A runtime error has just happened:</p><ul><li>%v</li></ul><p>Stack trace of the problem:</p><pre>%s</pre></body></html>".

Definition ApacheTime : string := "02/Jan/2006:15:04:05 -0700".

(** Conversion to [uint64], and arithmetic in it. *)
Definition uint64 (n : Z) : Z := n mod 2 ^ 64.

Section LogRecord.

Context {W : Type} `{!http.ResponseWriter W}.

(** [LogRecord] embeds the writer it wraps. *)
Record LogRecord : Type := {
  ResponseWriter : W;
  Host : string;
  Indent : string;
  RequestStarted : time.Time;
  RequestCompleted : time.Time;
  Request : string;
  Status : Z;
  Bytes : Z;
  Referer : string;
  UserAgent : string
}.

Definition set_ResponseWriter (rec : LogRecord) (w : W) : LogRecord :=
  {| ResponseWriter := w; Host := Host rec; Indent := Indent rec;
     RequestStarted := RequestStarted rec;
     RequestCompleted := RequestCompleted rec; Request := Request rec;
     Status := Status rec; Bytes := Bytes rec; Referer := Referer rec;
     UserAgent := UserAgent rec |}.

Definition set_Host (rec : LogRecord) (host : string) : LogRecord :=
  {| ResponseWriter := ResponseWriter rec; Host := host;
     Indent := Indent rec; RequestStarted := RequestStarted rec;
     RequestCompleted := RequestCompleted rec; Request := Request rec;
     Status := Status rec; Bytes := Bytes rec; Referer := Referer rec;
     UserAgent := UserAgent rec |}.

Definition set_RequestCompleted (rec : LogRecord) (t : time.Time)
  : LogRecord :=
  {| ResponseWriter := ResponseWriter rec; Host := Host rec;
     Indent := Indent rec; RequestStarted := RequestStarted rec;
     RequestCompleted := t; Request := Request rec;
     Status := Status rec; Bytes := Bytes rec; Referer := Referer rec;
     UserAgent := UserAgent rec |}.

Definition set_Status (rec : LogRecord) (status : Z) : LogRecord :=
  {| ResponseWriter := ResponseWriter rec; Host := Host rec;
     Indent := Indent rec; RequestStarted := RequestStarted rec;
     RequestCompleted := RequestCompleted rec; Request := Request rec;
     Status := status; Bytes := Bytes rec; Referer := Referer rec;
     UserAgent := UserAgent rec |}.

Definition set_Bytes (rec : LogRecord) (bytes : Z) : LogRecord :=
  {| ResponseWriter := ResponseWriter rec; Host := Host rec;
     Indent := Indent rec; RequestStarted := RequestStarted rec;
     RequestCompleted := RequestCompleted rec; Request := Request rec;
     Status := Status rec; Bytes := bytes; Referer := Referer rec;
     UserAgent := UserAgent rec |}.

(** The method [Write] of the record. *)
Definition LogRecord_Write (rec : LogRecord) (p : string)
  : LogRecord * (Z * option string) :=
  let '(w', (n, err)) := http.Write (ResponseWriter rec) p in
  let rec := set_ResponseWriter rec w' in
  let rec := set_Bytes rec (uint64 (Bytes rec + uint64 n)) in
  (rec, (n, err)).

(** The method [WriteHeader] of the record. *)
Definition LogRecord_WriteHeader (rec : LogRecord) (status : Z)
  : LogRecord :=
  let rec := set_Status rec status in
  set_ResponseWriter rec (http.WriteHeader (ResponseWriter rec) status).

(** The record is itself an [http.ResponseWriter]: it is what the
    handler and the guard write to. *)
#[export] Instance LogRecord_ResponseWriter : http.ResponseWriter LogRecord :=
  {| http.Write := LogRecord_Write;
     http.WriteHeader := LogRecord_WriteHeader |}.

(** [type Formatter]: a function from a record to its log line. *)
Definition Formatter : Type := LogRecord -> string.

Definition CombinedFormat (rec : LogRecord) : string :=
  fmt.Sprintf
    ("%s - %s [%s] " +:+ strings.dquote +:+ "%s" +:+ strings.dquote
     +:+ " %d %d " +:+ strings.dquote +:+ "%s" +:+ strings.dquote
     +:+ " " +:+ strings.dquote +:+ "%s" +:+ strings.dquote)
    [fmt.Str (Host rec); fmt.Str (Indent rec);
     fmt.Str (time.Format (RequestStarted rec) ApacheTime);
     fmt.Str (Request rec); fmt.Int (Status rec); fmt.Int (Bytes rec);
     fmt.Str (Referer rec); fmt.Str (UserAgent rec)].

Definition PerfFormat (rec : LogRecord) : string :=
  fmt.Sprintf
    ("%s - %s [%s] " +:+ strings.dquote +:+ "%s" +:+ strings.dquote
     +:+ " %d %d %dms")
    [fmt.Str (Host rec); fmt.Str (Indent rec);
     fmt.Str (time.Format (RequestStarted rec) ApacheTime);
     fmt.Str (Request rec); fmt.Int (Status rec); fmt.Int (Bytes rec);
     fmt.Int (Z.quot
                (time.Nanoseconds
                   (time.Sub (RequestCompleted rec) (RequestStarted rec)))
                1000000)].

End LogRecord.

Arguments LogRecord W : clear implicits.
Arguments Formatter W : clear implicits.

(** [App]: the two stack flags, the wrapped handler, and the channels of
    the sinks.  A channel is named by its key in the channel store; [None]
    is the nil channel. *)
Record App : Type := {
  StackIn500 : bool;
  StackInLog : bool;
  Handler : http.HandlerFunc;
  Errors : option nat;
  Loggers : list nat
}.

Definition NewApp (h : http.HandlerFunc) (detailed_stacks : bool) : App :=
  {| StackIn500 := detailed_stacks;
     StackInLog := detailed_stacks;
     Handler := h;
     Errors := None;
     Loggers := [] |}.

(** *** Channels *)

(** A buffered channel: its capacity and the values queued in it, oldest
    first. *)
Record Chan (A : Type) : Type := mkChan { cap : nat; buf : list A }.
Arguments mkChan {A}.
Arguments cap {A}.
Arguments buf {A}.

(** [make(chan A, n)] *)
Definition make {A : Type} (n : nat) : Chan A := mkChan n [].

(** [ch <- x] on a channel with room.  On a full channel the sender does
    not proceed: there is no result. *)
Definition trySend {A : Type} (c : Chan A) (x : A) : option (Chan A) :=
  if (length (buf c) <? cap c)%nat then Some (mkChan (cap c) (buf c ++ [x]))
  else None.

(** [<-ch] on a channel that holds a value.  On an empty channel the
    receiver does not proceed. *)
Definition tryRecv {A : Type} (c : Chan A) : option (A * Chan A) :=
  match buf c with
  | [] => None
  | x :: rest => Some (x, mkChan (cap c) rest)
  end.

Section Dispatcher.

Context {W : Type} `{!http.ResponseWriter W}.

(** [Stack] and [where] are helpers of the package defined outside
    [serve.go]: the text of the call stack and the source location, both
    from a number of frames above the caller.  They are taken as given. *)
Variable Stack : Z -> string.
Variable where_ : Z -> string.

(** [clock k]: what the [k]-th call of [time.Now()] made while serving
    the request returns. *)
Variable clock : nat -> time.Time.

(** A send statement reached by the request's goroutine. *)
Inductive Send : Type :=
| SendRecord (ch : nat) (rec : LogRecord W)
| SendError (ch : nat) (msg : string).

(** The state of the goroutine serving one request: the record it
    allocated (which the handler and the guard reach through a pointer),
    the number of clock readings it has made, and the sends it has
    reached, in program order.  A send returns nothing to the sender, and
    on every path of [ServeHTTP] only sends follow the first send, so the
    goroutine is described by what it does up to its sends and by the
    order of those; [deliver], below, says how far into them a given
    channel store lets it go. *)
Record Goroutine : Type := {
  rec : LogRecord W;
  ticks : nat;
  sends : list Send
}.

(** How a call ends: it returns, or it is panicking with a value. *)
Inductive Result (A : Type) : Type :=
| Ok (a : A)
| Panicking (e : fmt.any).
Arguments Ok {A}.
Arguments Panicking {A}.

Definition M (A : Type) : Type := Goroutine -> Result A * Goroutine.

Definition ret {A : Type} (a : A) : M A := fun g => (Ok a, g).

(** Sequencing: a panic skips what follows. *)
Definition bind {A B : Type} (c : M A) (k : A -> M B) : M B :=
  fun g =>
    match c g with
    | (Ok a, g') => k a g'
    | (Panicking e, g') => (Panicking e, g')
    end.

Notation "x <- c1 ;;; c2" := (bind c1 (fun x => c2))
  (at level 89, c1 at next level, right associativity).
Notation "c1 ;;; c2" := (bind c1 (fun _ => c2))
  (at level 89, right associativity).

(** [defer d(); body]: the deferred call runs when the body ends, however
    it ends.  [d] is handed what [recover()] returns in it; the guard of
    this package calls [recover()] first thing, which ends the panic, so
    the function then returns normally. *)
Definition defer_ (d : option fmt.any -> M unit) (body : M unit) : M unit :=
  fun g =>
    match body g with
    | (Ok _, g') => d None g'
    | (Panicking e, g') => d (Some e) g'
    end.

Definition time_Now : M time.Time :=
  fun g => (Ok (clock (ticks g)),
            {| rec := rec g; ticks := S (ticks g); sends := sends g |}).

Definition update (f : LogRecord W -> LogRecord W) : M unit :=
  fun g => (Ok tt, {| rec := f (rec g); ticks := ticks g; sends := sends g |}).

Definition reach (s : Send) : M unit :=
  fun g => (Ok tt, {| rec := rec g; ticks := ticks g; sends := sends g ++ [s] |}).

(** [w.WriteHeader(status)] and [w.Write(p)] where [w] is the record. *)
Definition w_WriteHeader (status : Z) : M unit :=
  update (fun rec => http.WriteHeader rec status).

Definition w_Write (p : string) : M (Z * option string) :=
  fun g =>
    let '(rec', res) := http.Write (rec g) p in
    (Ok res, {| rec := rec'; ticks := ticks g; sends := sends g |}).

(** [fmt.Fprintf(w, format, args...)] and [fmt.Fprint(w, s)]. *)
Definition Fprintf (format : string) (args : list fmt.arg)
  : M (Z * option string) :=
  w_Write (fmt.Sprintf format args).

Definition Fprint (s : string) : M (Z * option string) := w_Write s.

(** [logger <- rec]: the pointer to the record is what is sent. *)
Definition send_rec (logger : nat) : M unit :=
  fun g => reach (SendRecord logger (rec g)) g.

(** [app.Errors <- &msg] *)
Definition send_msg (ch : nat) (msg : string) : M unit :=
  reach (SendError ch msg).

(** [app.Handler(rec, r)] *)
Definition call_Handler (app : App) (r : http.Request) : M unit :=
  fun g =>
    let '(rec', panicked) := http.exec (Handler app r) (rec g) in
    let g' := {| rec := rec'; ticks := ticks g; sends := sends g |} in
    match panicked with
    | None => (Ok tt, g')
    | Some e => (Panicking e, g')
    end.

Fixpoint range {A : Type} (l : list A) (f : A -> M unit) : M unit :=
  match l with
  | [] => ret tt
  | x :: l' => f x ;;; range l' f
  end.

Definition HandlePanic (app : App) (r : http.Request)
  (recovered : option fmt.any) : M unit :=
  match recovered with
  | Some e =>
      w_WriteHeader 500 ;;;
      (if StackIn500 app
       then Fprintf errorPageDetailed [fmt.Val e; fmt.Str (Stack 2)]
       else Fprint errorPageShort) ;;;
      match Errors app with
      | Some ch =>
          if StackInLog app then
            now <- time_Now ;;;
            let msg :=
              fmt.Sprintf
                ("[%s] [panic] %v [at %s]" +:+ strings.newline +:+ "%s")
                [fmt.Str (time.Format now ApacheTime); fmt.Val e;
                 fmt.Str (where_ 2); fmt.Str (Stack 2)] in
            send_msg ch msg
          else
            now <- time_Now ;;;
            let msg :=
              fmt.Sprintf "[%s] [panic] %v [at %s]"
                [fmt.Str (time.Format now ApacheTime); fmt.Val e;
                 fmt.Str (where_ 2)] in
            send_msg ch msg
      | None => ret tt
      end
  | None => ret tt
  end.

(** The host part of a remote address, as [ServeHTTP] takes it. *)
Definition hostOf (RemoteAddr : string) : string :=
  let n := strings.LastIndex RemoteAddr ":" in
  if negb (n =? -1) then strings.slice_to RemoteAddr n else RemoteAddr.

(** The record as [ServeHTTP] builds it before it calls the handler. *)
Definition newRecord (w : W) (r : http.Request) (started : time.Time)
  : LogRecord W :=
  set_Host
    {| ResponseWriter := w;
       Host := "";
       Indent := "-";
       RequestStarted := started;
       RequestCompleted := time.zero;
       Request := http.Method r +:+ " " +:+ http.RequestURI r +:+ " "
                  +:+ http.Proto r;
       Status := http.StatusOK;
       Bytes := 0;
       Referer := http.Referer r;
       UserAgent := http.UserAgent r |}
    (hostOf (http.RemoteAddr r)).

Definition ServeHTTP (app : App) (w : W) (r : http.Request)
  : Result unit * Goroutine :=
  defer_ (HandlePanic app r)
    (call_Handler app r ;;;
     now <- time_Now ;;;
     update (fun rec => set_RequestCompleted rec now) ;;;
     range (Loggers app) send_rec)
    {| rec := newRecord w r (clock 0); ticks := 1; sends := [] |}.

(** *** Sinks *)

(** A log sink: the channel made by [AddLogger], with the formatter and
    the logger its consumer goroutine was started with. *)
Record Sink : Type := {
  queue : Chan (LogRecord W);
  format : Formatter W;
  dest : nat
}.

(** The error sink: the channel made by [ErrorLogger] and the logger of
    its consumer. *)
Record ErrorSink : Type := {
  equeue : Chan string;
  edest : nat
}.

(** What the goroutines share: the channels, keyed by name, and what
    each [*log.Logger] has been asked to print so far. *)
Record Store : Type := {
  sinks : gmap nat Sink;
  errors : gmap nat ErrorSink;
  printed : gmap nat (list string)
}.

Definition set_queue (sk : Sink) (q : Chan (LogRecord W)) : Sink :=
  {| queue := q; format := format sk; dest := dest sk |}.

Definition set_equeue (sk : ErrorSink) (q : Chan string) : ErrorSink :=
  {| equeue := q; edest := edest sk |}.

Definition set_sinks (st : Store) (m : gmap nat Sink) : Store :=
  {| sinks := m; errors := errors st; printed := printed st |}.

Definition set_errors (st : Store) (m : gmap nat ErrorSink) : Store :=
  {| sinks := sinks st; errors := m; printed := printed st |}.

Definition set_printed (st : Store) (m : gmap nat (list string)) : Store :=
  {| sinks := sinks st; errors := errors st; printed := m |}.

Definition set_Loggers (app : App) (l : list nat) : App :=
  {| StackIn500 := StackIn500 app; StackInLog := StackInLog app;
     Handler := Handler app; Errors := Errors app; Loggers := l |}.

Definition set_Errors (app : App) (ch : option nat) : App :=
  {| StackIn500 := StackIn500 app; StackInLog := StackInLog app;
     Handler := Handler app; Errors := ch; Loggers := Loggers app |}.

(** [AddLogger(f, log)]: a new channel of capacity 1000 is appended to
    the loggers of the app, and a goroutine is started that receives
    from it for ever.  The result names the new channel too. *)
Definition AddLogger (f : Formatter W) (log : nat) (app : App) (st : Store)
  : App * Store * nat :=
  let ch := fresh (dom (sinks st)) in
  let sk := {| queue := make 1000; format := f; dest := log |} in
  (set_Loggers app (Loggers app ++ [ch]),
   set_sinks st (<[ch := sk]> (sinks st)),
   ch).

(** [ErrorLogger(log)]: a new channel of capacity 1000 becomes the error
    channel of the app, and a goroutine is started that receives from it
    for ever and hands what it receives to [log]. *)
Definition ErrorLogger (log : nat) (app : App) (st : Store)
  : App * Store * nat :=
  let ch := fresh (dom (errors st)) in
  let sk := {| equeue := make 1000; edest := log |} in
  (set_Errors app (Some ch),
   set_errors st (<[ch := sk]> (errors st)),
   ch).

(** One send, if its channel lets it through.  A name that is not in the
    store stands for a channel nobody receives from with no room. *)
Definition perform (s : Send) (st : Store) : option Store :=
  match s with
  | SendRecord ch rec =>
      match sinks st !! ch with
      | Some sk =>
          match trySend (queue sk) rec with
          | Some q => Some (set_sinks st (<[ch := set_queue sk q]> (sinks st)))
          | None => None
          end
      | None => None
      end
  | SendError ch msg =>
      match errors st !! ch with
      | Some sk =>
          match trySend (equeue sk) msg with
          | Some q => Some (set_errors st (<[ch := set_equeue sk q]> (errors st)))
          | None => None
          end
      | None => None
      end
  end.

(** The sends of a goroutine, performed in order for as long as the
    channels have room: what is left is what the goroutine is blocked
    on, first the send it is parked at. *)
Fixpoint deliver (pending : list Send) (st : Store) : list Send * Store :=
  match pending with
  | [] => ([], st)
  | s :: rest =>
      match perform s st with
      | Some st' => deliver rest st'
      | None => (pending, st)
      end
  end.

(** One turn of the loop of a log sink's consumer:
    [rec := <-ch; log.Print(f(rec))]. *)
Definition consume (ch : nat) (st : Store) : option Store :=
  match sinks st !! ch with
  | Some sk =>
      match tryRecv (queue sk) with
      | Some (rec, q) =>
          let lines := default [] (printed st !! dest sk) in
          Some (set_printed
                  (set_sinks st (<[ch := set_queue sk q]> (sinks st)))
                  (<[dest sk := lines ++ [format sk rec]]> (printed st)))
      | None => None
      end
  | None => None
  end.

End Dispatcher.

Arguments Ok {A}.
Arguments Panicking {A}.
Arguments Send W : clear implicits.
Arguments Goroutine W : clear implicits.
Arguments M W : clear implicits.
Arguments Sink W : clear implicits.
Arguments Store W : clear implicits.

(** * Vocabulary of the properties *)

(** The sum of a list of byte counts. *)
Definition total (ns : list Z) : Z := fold_right Z.add 0 ns.

(** ** The texts the guard produces, as the specification words them *)

Definition spec_errorPageShort : string :=
  "<html><body><h1>500 Internal server error</h1>" +:+ "</body></html>".

Definition spec_errorPageDetailed (e : fmt.any) (stack : string) : string :=
  "<html><body><h1>500 Internal server error</h1>"
  +:+ "<p>A runtime error has just happened:</p><ul><li>"
  +:+ fmt.value_text e
  +:+ "</li></ul><p>Stack trace of the problem:</p><pre>"
  +:+ stack
  +:+ "</pre></body></html>".

(** The error report: the bracketed timestamp, the tag, the error value
    and the call site, and then, if asked for, the stack trace on a line of
    its own. *)
Definition spec_report (timestamp : string) (e : fmt.any)
  (location stack : string) (with_stack : bool) : string :=
  "[" +:+ timestamp +:+ "] [panic] " +:+ fmt.value_text e
  +:+ " [at " +:+ location +:+ "]"
  +:+ (if with_stack then strings.newline +:+ stack else "").

(** What both log lines start with, as the specification lays it out:
    [<host> - <indent> [<timestamp>] "<request-line>" <status> <bytes>]. *)
Definition spec_line_start {W : Type} (rec : LogRecord W) (timestamp : string)
  : string :=
  Host rec +:+ " - " +:+ Indent rec +:+ " [" +:+ timestamp +:+ "] "
  +:+ strings.dquote +:+ Request rec +:+ strings.dquote
  +:+ " " +:+ fmt.decimal (Status rec) +:+ " " +:+ fmt.decimal (Bytes rec).

(** [DD/Mon/YYYY:HH:MM:SS ±ZZZZ] *)
Definition spec_timestamp (t : time.Time) : string :=
  time.appendInt (time.Day t) 2 +:+ "/" +:+ time.monthAbbrev (time.Month t)
  +:+ "/" +:+ time.appendInt (time.Year t) 4
  +:+ ":" +:+ time.appendInt (time.Hour t) 2
  +:+ ":" +:+ time.appendInt (time.Minute t) 2
  +:+ ":" +:+ time.appendInt (time.Second t) 2
  +:+ " " +:+ time.numTZ t.

(** Whole milliseconds between two instants, rounded towards zero. *)
Definition spec_elapsed_ms (started completed : time.Time) : Z :=
  Z.quot (time.unixNano completed - time.unixNano started) 1000000.

Section Vocabulary.

Context {W : Type} `{!http.ResponseWriter W}.
Variable Stack : Z -> string.
Variable where_ : Z -> string.

(** Two records that differ at most in the writer, the status and the
    byte counter. *)
Definition same_request (a b : LogRecord W) : Prop :=
  Host a = Host b /\ Indent a = Indent b /\
  RequestStarted a = RequestStarted b /\
  RequestCompleted a = RequestCompleted b /\
  Request a = Request b /\ Referer a = Referer b /\
  UserAgent a = UserAgent b.

(** The page the guard writes for a panic with value [e]. *)
Definition guardPage (app : App) (e : fmt.any) : string :=
  if StackIn500 app then spec_errorPageDetailed e (Stack 2)
  else spec_errorPageShort.

(** The report the guard sends for a panic with value [e], when the
    clock reads [t]. *)
Definition guardReport (app : App) (e : fmt.any) (t : time.Time) : string :=
  spec_report (time.Format t ApacheTime) e (where_ 2) (Stack 2)
    (StackInLog app).

Definition guardSends (app : App) (e : fmt.any) (t : time.Time)
  : list (Send W) :=
  match Errors app with
  | Some ch => [SendError ch (guardReport app e t)]
  | None => []
  end.

(** The record after the guard has written to it. *)
Definition guarded (app : App) (e : fmt.any) (rec : LogRecord W)
  : LogRecord W :=
  fst (LogRecord_Write (LogRecord_WriteHeader rec 500) (guardPage app e)).

(** The byte counts the wrapped writer reports over a whole request:
    those of the handler's writes and, after a panic, that of the
    guard's write of the error page. *)
Definition reportedCounts (app : App) (w : W) (r : http.Request) : list Z :=
  match http.exec (Handler app r) w with
  | (client, Some e) =>
      http.reported (Handler app r) w
      ++ [fst (snd (http.Write (http.WriteHeader client 500)
                      (guardPage app e)))]
  | (_, None) => http.reported (Handler app r) w
  end.

(** The stores a program gets to: it starts with no channels, adds
    sinks with [AddLogger] and [ErrorLogger], and then requests send and
    consumers receive. *)
Inductive reachable : Store W -> Prop :=
| reach_start :
    reachable {| sinks := ∅; errors := ∅; printed := ∅ |}
| reach_AddLogger (f : Formatter W) (log : nat) (app : App) (st : Store W) :
    reachable st -> reachable (snd (fst (AddLogger f log app st)))
| reach_ErrorLogger (log : nat) (app : App) (st : Store W) :
    reachable st -> reachable (snd (fst (ErrorLogger log app st)))
| reach_perform (s : Send W) (st st' : Store W) :
    reachable st -> perform s st = Some st' -> reachable st'
| reach_consume (ch : nat) (st st' : Store W) :
    reachable st -> consume ch st = Some st' -> reachable st'.

(** Every log sink has a queue for 1000 records and no more than that
    in it. *)
Definition bounded (st : Store W) : Prop :=
  forall (ch : nat) (sk : Sink W),
    sinks st !! ch = Some sk ->
    cap (queue sk) = 1000%nat /\ (length (buf (queue sk)) <= 1000)%nat.

End Vocabulary.

(** ** A concrete client, request and clock to run the code on *)

Module Demo.

(** A wrapped writer that keeps the calls made on it, and reports every
    byte as written. *)
Inductive Call : Type :=
| CallWrite (p : string)
| CallWriteHeader (status : Z).

#[global] Instance callLog : http.ResponseWriter (list Call) :=
  {| http.Write := fun w p => (w ++ [CallWrite p], (strings.len p, None));
     http.WriteHeader := fun w status => w ++ [CallWriteHeader status] |}.

Definition request : http.Request :=
  {| http.Method := "GET";
     http.RequestURI := "/x";
     http.Proto := "HTTP/1.1";
     http.RemoteAddr := "203.0.113.5:54321";
     http.Header := fun key =>
       if String.eqb key "Referer" then "-"
       else if String.eqb key "User-Agent" then "test-agent"
       else "" |}.

(** 10 October 2000, 13:55:36 at UTC-7, and 2.5 ms more at every
    reading. *)
Definition clock (k : nat) : time.Time :=
  time.mkTime (971211336 * 1000000000 + Z.of_nat k * 2500000) (-25200).

Definition Stack (skip : Z) : string := "goroutine 1 [running]".
Definition where_ (skip : Z) : string := "handler.go:7".

(** A handler that writes, sets no status, and returns. *)
Definition hello : http.HandlerFunc :=
  fun _ => http.DoWrite "hello, " (fun _ _ =>
           http.DoWrite "world" (fun _ _ => http.Return)).

(** A handler that writes and then panics. *)
Definition faulty : http.HandlerFunc :=
  fun _ => http.DoWrite "partial" (fun _ _ =>
           http.Panic (fmt.AnyError "index out of range")).

Definition emptyStore : Store (list Call) :=
  {| sinks := ∅; errors := ∅; printed := ∅ |}.

(** The record of the combined-format example of the specification. *)
Definition sample (started completed : time.Time) : LogRecord (list Call) :=
  {| ResponseWriter := [];
     Host := "10.0.0.1";
     Indent := "-";
     RequestStarted := started;
     RequestCompleted := completed;
     Request := "GET /x HTTP/1.1";
     Status := 200;
     Bytes := 512;
     Referer := "-";
     UserAgent := "test-agent" |}.

End Demo.

(** * Vocabulary of the further properties *)

Section FurtherVocabulary.

Context {W : Type}.

Definition set_Referer (rec : LogRecord W) (referer : string) : LogRecord W :=
  {| ResponseWriter := ResponseWriter rec; Host := Host rec;
     Indent := Indent rec; RequestStarted := RequestStarted rec;
     RequestCompleted := RequestCompleted rec; Request := Request rec;
     Status := Status rec; Bytes := Bytes rec; Referer := referer;
     UserAgent := UserAgent rec |}.

Definition set_UserAgent (rec : LogRecord W) (agent : string) : LogRecord W :=
  {| ResponseWriter := ResponseWriter rec; Host := Host rec;
     Indent := Indent rec; RequestStarted := RequestStarted rec;
     RequestCompleted := RequestCompleted rec; Request := Request rec;
     Status := Status rec; Bytes := Bytes rec; Referer := Referer rec;
     UserAgent := agent |}.

(** [n] turns of the loop of a log sink's consumer, one after the other;
    no result if the queue runs empty before. *)
Fixpoint drain (ch : nat) (n : nat) (st : Store W) : option (Store W) :=
  match n with
  | O => Some st
  | S k =>
      match consume ch st with
      | Some st' => drain ch k st'
      | None => None
      end
  end.

(** A sink with one more record at the end of its queue. *)
Definition enqueued (record : LogRecord W) (sk : Sink W) : Sink W :=
  set_queue sk (mkChan (cap (queue sk)) (buf (queue sk) ++ [record])).

(** The channel is in the store and its queue has room. *)
Definition has_room (st : Store W) (ch : nat) : Prop :=
  exists sk : Sink W,
    sinks st !! ch = Some sk /\
    (length (buf (queue sk)) < cap (queue sk))%nat.

(** A send to the channel does not proceed: its queue is full, or nobody
    made the channel. *)
Definition is_stuck (st : Store W) (ch : nat) : Prop :=
  match sinks st !! ch with
  | Some sk => (cap (queue sk) <= length (buf (queue sk)))%nat
  | None => True
  end.

(** An App and the store beside it as a program sets them up: [NewApp]
    before any channel is made, then [AddLogger] and [ErrorLogger], with
    sends and receives in between. *)
Inductive setup : App -> Store W -> Prop :=
| setup_NewApp (h : http.HandlerFunc) (detailed_stacks : bool) :
    setup (NewApp h detailed_stacks)
      {| sinks := ∅; errors := ∅; printed := ∅ |}
| setup_AddLogger (f : Formatter W) (log : nat) (app : App) (st : Store W) :
    setup app st ->
    setup (fst (fst (AddLogger f log app st)))
      (snd (fst (AddLogger f log app st)))
| setup_ErrorLogger (log : nat) (app : App) (st : Store W) :
    setup app st ->
    setup (fst (fst (ErrorLogger log app st)))
      (snd (fst (ErrorLogger log app st)))
| setup_perform (s : Send W) (app : App) (st st' : Store W) :
    setup app st -> perform s st = Some st' -> setup app st'
| setup_consume (ch : nat) (app : App) (st st' : Store W) :
    setup app st -> consume ch st = Some st' -> setup app st'.

(** The loggers of the App are different channels, each one a sink of the
    store, and so is its error channel if it has one. *)
Definition well_formed (app : App) (st : Store W) : Prop :=
  NoDup (Loggers app) /\
  (forall ch : nat, ch ∈ Loggers app -> is_Some (sinks st !! ch)) /\
  (forall ch : nat, Errors app = Some ch -> is_Some (errors st !! ch)).

End FurtherVocabulary.

(** [P] holds of [x], [x + 1], ... for [fuel] numbers in a row; and of
    every number from 0 up to, and without, [n]. *)
Fixpoint allFrom (fuel : nat) (x : Z) (P : Z -> bool) : bool :=
  match fuel with
  | O => true
  | S k => P x && allFrom k (x + 1) P
  end.

Definition below (n : Z) (P : Z -> bool) : bool := allFrom (Z.to_nat n) 0 P.

(** The month and the day of [time.civil], from the day of the era. *)
Definition monthDay (doe : Z) : Z * Z :=
  let yoe := (doe - doe / 1460 + doe / 36524 - doe / 146096) / 365 in
  let doy := doe - (365 * yoe + yoe / 4 - yoe / 100) in
  let mp := (5 * doy + 2) / 153 in
  let d := doy - (153 * mp + 2) / 5 + 1 in
  let m := if mp <? 10 then mp + 3 else mp - 9 in
  (m, d).

Definition monthDay_ok (doe : Z) : bool :=
  let md := monthDay doe in
  (1 <=? fst md) && (fst md <=? 12) && (1 <=? snd md) && (snd md <=? 31).

(** More clients to run the code on. *)
Module Samples.

(** A wrapped writer whose connection is closed: it reports an error and
    the count -1 for every write. *)
Inductive Closed : Type := closed.

#[global] Instance closedWriter : http.ResponseWriter Closed :=
  {| http.Write := fun w p => (w, (-1, Some "use of closed connection"));
     http.WriteHeader := fun w status => w |}.

(** An empty record around a writer. *)
Definition blank {W : Type} (w : W) : LogRecord W :=
  {| ResponseWriter := w; Host := ""; Indent := "-";
     RequestStarted := time.zero; RequestCompleted := time.zero;
     Request := ""; Status := 200; Bytes := 0; Referer := "";
     UserAgent := "" |}.

End Samples.

(** * Properties *)

(** ** The library models on known values *)

Example LastIndex_known :
  strings.LastIndex "203.0.113.5:54321" ":" = 11 /\
  strings.LastIndex "[::1]:80" ":" = 5 /\
  strings.LastIndex "203.0.113.5" ":" = -1 /\
  strings.LastIndex "abc" "" = 3.
Proof. repeat split. Qed.

Example Sprintf_known :
  fmt.Sprintf "%s=%d (%v) 100%%"
    [fmt.Str "n"; fmt.Int (-15); fmt.Val (fmt.AnyError "boom")]
  = "n=-15 (boom) 100%" /\
  fmt.Sprintf "%d" [fmt.Int 0] = "0".
Proof. split; reflexivity. Qed.

Example Format_known :
  time.Format (time.mkTime (971211336 * 1000000000) (-25200)) ApacheTime
  = "10/Oct/2000:13:55:36 -0700" /\
  time.Format time.zero ApacheTime = "01/Jan/0001:00:00:00 +0000" /\
  time.Format (time.mkTime (1709164800 * 1000000000 - 1) 19800) ApacheTime
  = "29/Feb/2024:05:29:59 +0530" /\
  time.Format (time.mkTime (1798761600 * 1000000000 - 1) 0) ApacheTime
  = "31/Dec/2026:23:59:59 +0000".
Proof. repeat split; vm_compute; reflexivity. Qed.

Example Sub_known :
  time.Sub (time.mkTime 2500000 0) (time.mkTime 0 3600) = 2500000 /\
  time.Sub (time.mkTime 0 0) time.zero = time.maxDuration /\
  time.Sub time.zero (time.mkTime 0 0) = time.minDuration.
Proof. repeat split. Qed.

(** ** Strings *)

Section StringFacts.

Lemma prefix_colon (s : string) :
  String.prefix ":" s =
  match s with
  | String c _ => Ascii.eqb ":" c
  | EmptyString => false
  end.
Proof.
  destruct s as [|c s]; [reflexivity|]. cbn [String.prefix].
  destruct (ascii_dec ":" c) as [Heq|Hne].
  - subst c. destruct s; reflexivity.
  - symmetry. apply Ascii.eqb_neq. exact Hne.
Qed.

(** Scanning a string without a colon leaves the best match as it is. *)
Lemma scanLast_no_colon (s : string) :
  forall i best,
    strings.contains_byte ":" s = false ->
    strings.scanLast ":" i best s = best.
Proof.
  induction s as [|c s IH]; intros i best Hs.
  - reflexivity.
  - cbn [strings.contains_byte] in Hs.
    cbn [strings.scanLast]. rewrite prefix_colon.
    destruct (Ascii.eqb ":" c); [discriminate|]. now apply IH.
Qed.

(** Scanning [host ++ ":" ++ port], with no colon in [port], ends on the
    colon between them. *)
Lemma scanLast_last_colon (host port : string) :
  forall i best,
    strings.contains_byte ":" port = false ->
    strings.scanLast ":" i best (host +:+ ":" +:+ port)
    = i + strings.len host.
Proof.
  unfold strings.len.
  induction host as [|c host IH]; intros i best Hport.
  - change ("" +:+ ":" +:+ port) with (String ":" port).
    cbn [strings.scanLast]. rewrite prefix_colon, Ascii.eqb_refl.
    rewrite scanLast_no_colon by exact Hport. simpl. lia.
  - change (String c host +:+ ":" +:+ port)
      with (String c (host +:+ ":" +:+ port)).
    cbn [strings.scanLast]. rewrite IH by exact Hport.
    cbn [String.length]. lia.
Qed.

Lemma slice_to_app (s t : string) :
  strings.slice_to (s +:+ t) (strings.len s) = s.
Proof.
  unfold strings.slice_to, strings.len. rewrite Nat2Z.id.
  induction s as [|c s IH].
  - destruct t; reflexivity.
  - change (String c s +:+ t) with (String c (s +:+ t)).
    cbn [String.length String.substring]. now rewrite IH.
Qed.

Lemma LastIndex_absent (s : string) :
  strings.contains_byte ":" s = false -> strings.LastIndex s ":" = -1.
Proof. intros Hs. unfold strings.LastIndex. now apply scanLast_no_colon. Qed.

Lemma LastIndex_present (host port : string) :
  strings.contains_byte ":" port = false ->
  strings.LastIndex (host +:+ ":" +:+ port) ":" = strings.len host.
Proof.
  intros Hp. unfold strings.LastIndex.
  rewrite scanLast_last_colon by exact Hp. lia.
Qed.

Lemma len_nonneg (s : string) : 0 <= strings.len s.
Proof. unfold strings.len. lia. Qed.

End StringFacts.

(** ** The record as a writer *)

Lemma total_app (l1 l2 : list Z) : total (l1 ++ l2) = total l1 + total l2.
Proof. induction l1 as [|n l1 IH]; simpl; lia. Qed.

Lemma uint64_range (n : Z) : 0 <= uint64 n < 2 ^ 64.
Proof. unfold uint64. apply Z.mod_pos_bound. lia. Qed.

Lemma uint64_small (n : Z) : 0 <= n < 2 ^ 64 -> uint64 n = n.
Proof. intros Hn. unfold uint64. now apply Z.mod_small. Qed.

Lemma uint64_add_uint64 (a n : Z) : uint64 (a + uint64 n) = uint64 (a + n).
Proof. unfold uint64. now rewrite Zplus_mod_idemp_r. Qed.

Lemma uint64_uint64_add (a n : Z) : uint64 (uint64 a + n) = uint64 (a + n).
Proof. unfold uint64. now rewrite Zplus_mod_idemp_l. Qed.

Lemma last_cons_default {A : Type} (x d : A) (l : list A) :
  List.last (x :: l) d = List.last l x.
Proof.
  revert x d. induction l as [|y l IH]; intros x d; [reflexivity|].
  change (List.last (x :: y :: l) d) with (List.last (y :: l) d).
  now rewrite (IH y d), (IH y x).
Qed.

Section RecorderFacts.

Context {W : Type} `{!http.ResponseWriter W}.

Lemma same_request_refl (a : LogRecord W) : same_request a a.
Proof. repeat split. Qed.

Lemma same_request_trans (a b c : LogRecord W) :
  same_request a b -> same_request b c -> same_request a c.
Proof.
  unfold same_request. intros Hab Hbc.
  repeat split; etransitivity; try apply Hab; apply Hbc.
Qed.

(** One [Write] through the record: the wrapped writer gets the same
    call, the count it reports is added to [Bytes] and handed back. *)
Lemma LogRecord_Write_spec (rec : LogRecord W) (p : string) :
  let r := http.Write (ResponseWriter rec) p in
  snd (LogRecord_Write rec p) = snd r /\
  ResponseWriter (fst (LogRecord_Write rec p)) = fst r /\
  Bytes (fst (LogRecord_Write rec p))
  = uint64 (Bytes rec + fst (snd r)) /\
  Status (fst (LogRecord_Write rec p)) = Status rec /\
  same_request (fst (LogRecord_Write rec p)) rec.
Proof.
  unfold LogRecord_Write.
  destruct (http.Write (ResponseWriter rec) p) as [w' [n err]].
  cbn. rewrite uint64_add_uint64. repeat split.
Qed.

Lemma LogRecord_WriteHeader_spec (rec : LogRecord W) (status : Z) :
  ResponseWriter (LogRecord_WriteHeader rec status)
  = http.WriteHeader (ResponseWriter rec) status /\
  Bytes (LogRecord_WriteHeader rec status) = Bytes rec /\
  Status (LogRecord_WriteHeader rec status) = status /\
  same_request (LogRecord_WriteHeader rec status) rec.
Proof. repeat split. Qed.

(** A handler run against the record drives the wrapped writer exactly
    as if it were run against it directly, ends the same way, and leaves
    in the record the sum of the reported counts and the last status it
    set. *)
Lemma exec_through_record (b : http.Body) :
  forall rec : LogRecord W,
    snd (http.exec b rec) = snd (http.exec b (ResponseWriter rec)) /\
    ResponseWriter (fst (http.exec b rec))
    = fst (http.exec b (ResponseWriter rec)) /\
    uint64 (Bytes (fst (http.exec b rec)))
    = uint64 (Bytes rec + total (http.reported b (ResponseWriter rec))) /\
    (http.reported b (ResponseWriter rec) = [] ->
     Bytes (fst (http.exec b rec)) = Bytes rec) /\
    (0 <= Bytes rec < 2 ^ 64 ->
     0 <= Bytes (fst (http.exec b rec)) < 2 ^ 64) /\
    Status (fst (http.exec b rec))
    = List.last (http.statuses b (ResponseWriter rec)) (Status rec) /\
    same_request (fst (http.exec b rec)) rec.
Proof.
  induction b as [|e|p k IH|status k IH]; intros rec.
  - cbn. rewrite Z.add_0_r. repeat split; auto; lia.
  - cbn. rewrite Z.add_0_r. repeat split; auto; lia.
  - cbn [http.exec http.reported http.statuses].
    change (http.Write rec p) with (LogRecord_Write rec p).
    pose proof (LogRecord_Write_spec rec p) as Hw. cbv zeta in Hw.
    destruct (LogRecord_Write rec p) as [rec' [n' err']].
    destruct (http.Write (ResponseWriter rec) p) as [w' [n err]].
    cbn [fst snd] in Hw.
    destruct Hw as (Hres & Hrw & Hbytes & Hstatus & Hsame).
    injection Hres as -> ->.
    specialize (IH n err rec'). rewrite Hrw in IH.
    destruct IH as (IH1 & IH2 & IH3 & IH4 & IH5 & IH6 & IH7).
    split; [exact IH1|]. split; [exact IH2|].
    split.
    { rewrite IH3, Hbytes. cbn [total fold_right].
      rewrite uint64_uint64_add. f_equal.
      fold (total (http.reported (k n err) w')). lia. }
    split; [discriminate|].
    split.
    { intros _. apply IH5. rewrite Hbytes. apply uint64_range. }
    split; [now rewrite IH6, Hstatus|].
    eapply same_request_trans; eassumption.
  - cbn [http.exec http.reported http.statuses].
    change (http.WriteHeader rec status)
      with (LogRecord_WriteHeader rec status).
    destruct (LogRecord_WriteHeader_spec rec status)
      as (Hrw & Hbytes & Hstatus & Hsame).
    specialize (IH (LogRecord_WriteHeader rec status)). rewrite Hrw in IH.
    destruct IH as (IH1 & IH2 & IH3 & IH4 & IH5 & IH6 & IH7).
    split; [exact IH1|]. split; [exact IH2|].
    split; [now rewrite IH3, Hbytes|].
    split; [intros Hr; now rewrite IH4, Hbytes|].
    split; [intros Hr; apply IH5; now rewrite Hbytes|].
    split; [now rewrite IH6, Hstatus, last_cons_default|].
    eapply same_request_trans; eassumption.
Qed.

End RecorderFacts.

Lemma verb_v_any (e : fmt.any) : fmt.verb "v" (fmt.Val e) = fmt.value_text e.
Proof. destruct e; reflexivity. Qed.

Lemma verb_s_str (s : string) : fmt.verb "s" (fmt.Str s) = s.
Proof. reflexivity. Qed.

Lemma verb_d_int (n : Z) : fmt.verb "d" (fmt.Int n) = fmt.decimal n.
Proof. reflexivity. Qed.

Lemma append_cons (c : ascii) (s t : string) :
  String c s +:+ t = String c (s +:+ t).
Proof. reflexivity. Qed.

Lemma append_nil_l (t : string) : "" +:+ t = t.
Proof. reflexivity. Qed.

Lemma append_nil_r (s : string) : s +:+ "" = s.
Proof. induction s as [|c s IH]; [reflexivity|]. now rewrite append_cons, IH. Qed.

Lemma append_assoc (s t u : string) : (s +:+ t) +:+ u = s +:+ (t +:+ u).
Proof. induction s as [|c s IH]; [reflexivity|]. now rewrite !append_cons, IH. Qed.

(** Both sides of an equation between concatenations, brought to the
    same right-nested form. *)
Ltac append_norm :=
  repeat (rewrite append_assoc || rewrite append_cons
          || rewrite append_nil_l || rewrite append_nil_r).

(** Formatting with a closed format string: compute the format, unfold
    [Sprintf] along it, settle the verbs, and compare. *)
Ltac sprintf :=
  repeat match goal with
  | |- context [fmt.Sprintf ?f ?args] =>
      let f' := eval vm_compute in f in
      progress change (fmt.Sprintf f args) with (fmt.Sprintf f' args)
  end;
  cbn [fmt.Sprintf Ascii.eqb Bool.eqb];
  rewrite ?verb_v_any, ?verb_s_str, ?verb_d_int;
  unfold strings.dquote, strings.newline;
  append_norm;
  reflexivity.

Lemma Sprintf_errorPageDetailed (e : fmt.any) (stack : string) :
  fmt.Sprintf errorPageDetailed [fmt.Val e; fmt.Str stack]
  = spec_errorPageDetailed e stack.
Proof. unfold errorPageDetailed, spec_errorPageDetailed. sprintf. Qed.

Lemma Sprintf_report_stack (ts : string) (e : fmt.any) (loc stack : string) :
  fmt.Sprintf ("[%s] [panic] %v [at %s]" +:+ strings.newline +:+ "%s")
    [fmt.Str ts; fmt.Val e; fmt.Str loc; fmt.Str stack]
  = spec_report ts e loc stack true.
Proof. unfold spec_report. sprintf. Qed.

Lemma Sprintf_report_plain (ts : string) (e : fmt.any) (loc stack : string) :
  fmt.Sprintf "[%s] [panic] %v [at %s]" [fmt.Str ts; fmt.Val e; fmt.Str loc]
  = spec_report ts e loc stack false.
Proof. unfold spec_report. sprintf. Qed.

(** ** The guard and the dispatcher, path by path *)

Section DispatcherFacts.

Context {W : Type} `{!http.ResponseWriter W}.
Variable Stack : Z -> string.
Variable where_ : Z -> string.
Variable clock : nat -> time.Time.

Lemma HandlePanic_nil (app : App) (r : http.Request) (g : Goroutine W) :
  HandlePanic Stack where_ clock app r None g = (Ok tt, g).
Proof. reflexivity. Qed.

Lemma HandlePanic_recovered (app : App) (r : http.Request) (e : fmt.any)
  (g : Goroutine W) :
  HandlePanic Stack where_ clock app r (Some e) g
  = (Ok tt,
     {| rec := guarded Stack app e (rec g);
        ticks := match Errors app with
                 | Some _ => S (ticks g)
                 | None => ticks g
                 end;
        sends := sends g ++ guardSends Stack where_ app e (clock (ticks g)) |}).
Proof.
  unfold HandlePanic, guarded, guardSends, guardReport, guardPage.
  unfold Fprintf, Fprint.
  rewrite Sprintf_errorPageDetailed.
  change errorPageShort with spec_errorPageShort.
  destruct (StackIn500 app), (Errors app) as [ch|], (StackInLog app);
    unfold bind, w_WriteHeader, update, w_Write, time_Now, send_msg,
      reach, ret;
    cbn [rec ticks sends];
    match goal with
    | |- context [http.Write ?a ?p] =>
        change (http.Write a p)
          with (LogRecord_Write (LogRecord_WriteHeader (rec g) 500) p);
        destruct (LogRecord_Write (LogRecord_WriteHeader (rec g) 500) p)
          as [rec2 res]
    end;
    cbn [fst rec ticks sends];
    rewrite ?app_nil_r, ?Sprintf_report_stack,
      ?(Sprintf_report_plain _ _ _ (Stack 2));
    reflexivity.
Qed.

Lemma range_send_rec (l : list nat) :
  forall g : Goroutine W,
    range l send_rec g
    = (Ok tt,
       {| rec := rec g; ticks := ticks g;
          sends := sends g ++ map (fun ch => SendRecord ch (rec g)) l |}).
Proof.
  induction l as [|ch l IH]; intros g.
  - cbn. rewrite app_nil_r. now destruct g.
  - cbn [range map]. unfold bind at 1. unfold send_rec at 1, reach.
    rewrite IH. cbn [rec ticks sends]. now rewrite <- app_assoc.
Qed.

(** The handler returns: the rest of the body runs. *)
Lemma ServeHTTP_returns (app : App) (w : W) (r : http.Request)
  (rec' : LogRecord W) :
  http.exec (Handler app r) (newRecord w r (clock 0)) = (rec', None) ->
  ServeHTTP Stack where_ clock app w r
  = (Ok tt,
     {| rec := set_RequestCompleted rec' (clock 1);
        ticks := 2;
        sends := map (fun ch => SendRecord ch
                                  (set_RequestCompleted rec' (clock 1)))
                   (Loggers app) |}).
Proof.
  intros Hexec. unfold ServeHTTP, defer_.
  unfold bind at 1. unfold call_Handler. cbn [rec ticks sends].
  rewrite Hexec.
  unfold bind at 1. unfold time_Now at 1. cbn [rec ticks sends].
  unfold bind at 1. unfold update at 1. cbn [rec ticks sends].
  rewrite range_send_rec. cbn [rec ticks sends List.app].
  apply HandlePanic_nil.
Qed.

(** The handler panics: the rest of the body is skipped and the guard
    runs with the value. *)
Lemma ServeHTTP_panics (app : App) (w : W) (r : http.Request)
  (rec' : LogRecord W) (e : fmt.any) :
  http.exec (Handler app r) (newRecord w r (clock 0)) = (rec', Some e) ->
  ServeHTTP Stack where_ clock app w r
  = (Ok tt,
     {| rec := guarded Stack app e rec';
        ticks := match Errors app with Some _ => 2%nat | None => 1%nat end;
        sends := guardSends Stack where_ app e (clock 1) |}).
Proof.
  intros Hexec. unfold ServeHTTP, defer_.
  unfold bind at 1. unfold call_Handler. cbn [rec ticks sends].
  rewrite Hexec. apply HandlePanic_recovered.
Qed.

End DispatcherFacts.

(** ** Host parsing *)

Section HostFacts.

Context {W : Type} `{!http.ResponseWriter W}.
Variable Stack : Z -> string.
Variable where_ : Z -> string.
Variable clock : nat -> time.Time.

Lemma hostOf_split (host port : string) :
  strings.contains_byte ":" port = false ->
  hostOf (host +:+ ":" +:+ port) = host.
Proof.
  intros Hport. unfold hostOf.
  rewrite LastIndex_present by exact Hport.
  pose proof (len_nonneg host) as Hlen.
  destruct (strings.len host =? -1) eqn:E; [lia|].
  cbn [negb]. apply slice_to_app.
Qed.

Lemma hostOf_whole (addr : string) :
  strings.contains_byte ":" addr = false -> hostOf addr = addr.
Proof.
  intros Haddr. unfold hostOf. now rewrite LastIndex_absent by exact Haddr.
Qed.

(** The guard leaves the request part of the record alone. *)
Lemma guarded_same_request (app : App) (e : fmt.any) (rec : LogRecord W) :
  same_request (guarded Stack app e rec) rec.
Proof.
  unfold guarded.
  destruct (LogRecord_Write_spec (LogRecord_WriteHeader rec 500)
              (guardPage Stack app e)) as (_ & _ & _ & _ & Hsame).
  eapply same_request_trans; [exact Hsame|].
  apply LogRecord_WriteHeader_spec.
Qed.

(** Whatever the handler does, the record ends with the host, the
    request line, the start time, the referer and the user agent the
    dispatcher put in it. *)
Lemma ServeHTTP_same_request (app : App) (w : W) (r : http.Request) :
  let rec0 := newRecord w r (clock 0) in
  let rec1 := rec (snd (ServeHTTP Stack where_ clock app w r)) in
  Host rec1 = Host rec0 /\ Indent rec1 = Indent rec0 /\
  RequestStarted rec1 = RequestStarted rec0 /\
  Request rec1 = Request rec0 /\ Referer rec1 = Referer rec0 /\
  UserAgent rec1 = UserAgent rec0.
Proof.
  cbv zeta.
  destruct (http.exec (Handler app r) (newRecord w r (clock 0)))
    as [rec' [e|]] eqn:Hexec.
  - rewrite (ServeHTTP_panics _ _ _ _ _ _ _ _ Hexec). cbn [snd rec].
    pose proof (exec_through_record (Handler app r)
                  (newRecord w r (clock 0))) as Hthrough.
    rewrite Hexec in Hthrough. cbn [fst snd] in Hthrough.
    destruct Hthrough as (_ & _ & _ & _ & _ & _ & Hsame).
    pose proof (same_request_trans _ _ _
                  (guarded_same_request app e rec') Hsame)
      as (?&?&?&?&?&?&?).
    repeat split; assumption.
  - rewrite (ServeHTTP_returns _ _ _ _ _ _ _ Hexec). cbn [snd rec].
    pose proof (exec_through_record (Handler app r)
                  (newRecord w r (clock 0))) as Hthrough.
    rewrite Hexec in Hthrough. cbn [fst snd] in Hthrough.
    destruct Hthrough as (_ & _ & _ & _ & _ & _ & Hsame).
    destruct Hsame as (?&?&?&?&?&?&?).
    repeat split; assumption.
Qed.

(** C5. The host the dispatcher records is the remote address up to,
    and without, its last colon; an address with no colon is recorded
    whole.  So ["203.0.113.5:54321"] gives ["203.0.113.5"], and
    ["203.0.113.5"] gives itself. *)
Theorem host_is_address_before_last_colon :
  (forall host port : string,
      strings.contains_byte ":" port = false ->
      hostOf (host +:+ ":" +:+ port) = host) /\
  (forall addr : string,
      strings.contains_byte ":" addr = false -> hostOf addr = addr) /\
  hostOf "203.0.113.5:54321" = "203.0.113.5" /\
  hostOf "203.0.113.5" = "203.0.113.5" /\
  (forall (app : App) (w : W) (r : http.Request),
      Host (rec (snd (ServeHTTP Stack where_ clock app w r)))
      = hostOf (http.RemoteAddr r)).
Proof.
  split; [exact hostOf_split|].
  split; [exact hostOf_whole|].
  split; [reflexivity|].
  split; [reflexivity|].
  intros app w r.
  destruct (ServeHTTP_same_request app w r) as (Hhost & _).
  rewrite Hhost. reflexivity.
Qed.

End HostFacts.

(** The address of an IPv6 peer: only the last colon counts. *)
Lemma host_is_address_before_last_colon_witness :
  hostOf ("[2001:db8::1]" +:+ ":" +:+ "8080") = "[2001:db8::1]" /\
  hostOf "localhost" = "localhost".
Proof.
  pose proof (host_is_address_before_last_colon
                (W:=list Demo.Call) Demo.Stack Demo.where_ Demo.clock)
    as (Hsplit & Hwhole & _).
  split.
  - apply Hsplit. reflexivity.
  - apply Hwhole. reflexivity.
Defined.


(** ** The formatters *)

Lemma Format_ApacheTime (t : time.Time) :
  time.Format t ApacheTime = spec_timestamp t.
Proof.
  unfold time.Format, ApacheTime, spec_timestamp.
  lazy -[time.appendStd String.app time.appendInt time.Day time.Month
         time.Year time.Hour time.Minute time.Second time.numTZ
         time.monthAbbrev].
  cbn [time.appendStd]. append_norm. reflexivity.
Qed.

Lemma Sub_in_range (t u : time.Time) :
  time.minDuration <= time.unixNano t - time.unixNano u <= time.maxDuration ->
  time.Sub t u = time.unixNano t - time.unixNano u.
Proof.
  intros Hrange. unfold time.Sub.
  destruct (Z.ltb_spec (time.unixNano t - time.unixNano u) time.minDuration);
    [lia|].
  destruct (Z.ltb_spec time.maxDuration (time.unixNano t - time.unixNano u));
    [lia|reflexivity].
Qed.

Section FormatterFacts.

Context {W : Type}.

Lemma CombinedFormat_line (rec : LogRecord W) :
  CombinedFormat rec
  = spec_line_start rec (time.Format (RequestStarted rec) ApacheTime)
    +:+ " " +:+ strings.dquote +:+ Referer rec +:+ strings.dquote
    +:+ " " +:+ strings.dquote +:+ UserAgent rec +:+ strings.dquote.
Proof.
  unfold CombinedFormat, spec_line_start.
  generalize (time.Format (RequestStarted rec) ApacheTime). intros ts.
  sprintf.
Qed.

Lemma PerfFormat_line (rec : LogRecord W) :
  PerfFormat rec
  = spec_line_start rec (time.Format (RequestStarted rec) ApacheTime)
    +:+ " "
    +:+ fmt.decimal
          (Z.quot (time.Sub (RequestCompleted rec) (RequestStarted rec))
             1000000)
    +:+ "ms".
Proof.
  unfold PerfFormat, spec_line_start, time.Nanoseconds.
  generalize (time.Format (RequestStarted rec) ApacheTime). intros ts.
  generalize (time.Sub (RequestCompleted rec) (RequestStarted rec)).
  intros d. sprintf.
Qed.

End FormatterFacts.

(** C7. The last field of the performance line is the completion time
    minus the start time in whole milliseconds, the fraction dropped,
    followed by [ms]; a record completed at the instant it started gets
    [0ms].  The difference is taken as a [time.Duration], so this is for
    requests that took less than its range of about 292 years. *)
Theorem PerfFormat_elapsed_milliseconds {W : Type} (rec : LogRecord W) :
  time.minDuration
  <= time.unixNano (RequestCompleted rec) - time.unixNano (RequestStarted rec)
  <= time.maxDuration ->
  PerfFormat rec
  = spec_line_start rec (spec_timestamp (RequestStarted rec)) +:+ " "
    +:+ fmt.decimal (spec_elapsed_ms (RequestStarted rec) (RequestCompleted rec))
    +:+ "ms" /\
  (RequestCompleted rec = RequestStarted rec ->
   PerfFormat rec
   = spec_line_start rec (spec_timestamp (RequestStarted rec)) +:+ " 0ms").
Proof.
  intros Hrange.
  assert (Hline :
    PerfFormat rec
    = spec_line_start rec (spec_timestamp (RequestStarted rec)) +:+ " "
      +:+ fmt.decimal
            (spec_elapsed_ms (RequestStarted rec) (RequestCompleted rec))
      +:+ "ms").
  { rewrite PerfFormat_line, Format_ApacheTime, Sub_in_range by exact Hrange.
    reflexivity. }
  split; [exact Hline|].
  intros Hsame. rewrite Hline. unfold spec_elapsed_ms.
  rewrite Hsame, Z.sub_diag. reflexivity.
Qed.

(** A request that took two and a half milliseconds is logged with [2ms]. *)
Lemma PerfFormat_elapsed_milliseconds_witness :
  PerfFormat (Demo.sample (Demo.clock 0) (Demo.clock 1))
  = "10.0.0.1 - - [10/Oct/2000:13:55:36 -0700] " +:+ strings.dquote
    +:+ "GET /x HTTP/1.1" +:+ strings.dquote +:+ " 200 512 2ms".
Proof.
  destruct (PerfFormat_elapsed_milliseconds
              (Demo.sample (Demo.clock 0) (Demo.clock 1))) as [Hline _].
  - vm_compute. split; discriminate.
  - rewrite Hline. vm_compute. reflexivity.
Defined.

(** C8. For the record with host 10.0.0.1, indent [-], status 200, 512
    bytes, request line [GET /x HTTP/1.1], referer [-] and user agent
    [test-agent], the combined line is
    [10.0.0.1 - - [<ts>] "GET /x HTTP/1.1" 200 512 "-" "test-agent"] with
    [<ts>] the time of the record laid out as [DD/Mon/YYYY:HH:MM:SS ±ZZZZ];
    for 10 October 2000, 13:55:36 at UTC-7, [<ts>] is
    [10/Oct/2000:13:55:36 -0700]. *)
Theorem CombinedFormat_of_the_sample_record {W : Type} (w : W)
  (started completed : time.Time) :
  let sample :=
    {| ResponseWriter := w; Host := "10.0.0.1"; Indent := "-";
       RequestStarted := started; RequestCompleted := completed;
       Request := "GET /x HTTP/1.1"; Status := 200; Bytes := 512;
       Referer := "-"; UserAgent := "test-agent" |} in
  CombinedFormat sample
  = "10.0.0.1 - - [" +:+ spec_timestamp started +:+ "] " +:+ strings.dquote
    +:+ "GET /x HTTP/1.1" +:+ strings.dquote +:+ " 200 512 "
    +:+ strings.dquote +:+ "-" +:+ strings.dquote +:+ " "
    +:+ strings.dquote +:+ "test-agent" +:+ strings.dquote /\
  time.Format started ApacheTime = spec_timestamp started /\
  CombinedFormat (Demo.sample (Demo.clock 0) completed)
  = "10.0.0.1 - - [10/Oct/2000:13:55:36 -0700] " +:+ strings.dquote
    +:+ "GET /x HTTP/1.1" +:+ strings.dquote +:+ " 200 512 "
    +:+ strings.dquote +:+ "-" +:+ strings.dquote +:+ " "
    +:+ strings.dquote +:+ "test-agent" +:+ strings.dquote.
Proof.
  cbv zeta. split; [|split].
  - rewrite CombinedFormat_line, Format_ApacheTime.
    unfold spec_line_start.
    cbn [Host Indent Request Status Bytes Referer UserAgent RequestStarted].
    generalize (spec_timestamp started). intros ts.
    change (fmt.decimal 200) with "200". change (fmt.decimal 512) with "512".
    unfold strings.dquote. append_norm. reflexivity.
  - apply Format_ApacheTime.
  - rewrite CombinedFormat_line. unfold spec_line_start, Demo.sample.
    cbn [Host Indent Request Status Bytes Referer UserAgent RequestStarted].
    vm_compute. reflexivity.
Qed.

(** C10. The time between the brackets of both built-in lines is the time
    the request started.  The completion time does not show in the
    combined line at all, and in the performance line it shows only in
    the milliseconds before [ms]. *)
Theorem bracketed_time_is_the_start_time {W : Type} (rec : LogRecord W)
  (t : time.Time) :
  CombinedFormat rec
  = spec_line_start rec (time.Format (RequestStarted rec) ApacheTime)
    +:+ " " +:+ strings.dquote +:+ Referer rec +:+ strings.dquote
    +:+ " " +:+ strings.dquote +:+ UserAgent rec +:+ strings.dquote /\
  PerfFormat rec
  = spec_line_start rec (time.Format (RequestStarted rec) ApacheTime)
    +:+ " "
    +:+ fmt.decimal
          (Z.quot (time.Sub (RequestCompleted rec) (RequestStarted rec))
             1000000)
    +:+ "ms" /\
  CombinedFormat (set_RequestCompleted rec t) = CombinedFormat rec /\
  PerfFormat (set_RequestCompleted rec t)
  = spec_line_start rec (time.Format (RequestStarted rec) ApacheTime)
    +:+ " "
    +:+ fmt.decimal (Z.quot (time.Sub t (RequestStarted rec)) 1000000)
    +:+ "ms".
Proof.
  split; [apply CombinedFormat_line|].
  split; [apply PerfFormat_line|].
  split; [reflexivity|].
  rewrite PerfFormat_line. reflexivity.
Qed.

(** ** Construction *)

(** C3, as stated, fails: no App that [NewApp] returns has two different
    stack flags. *)
Lemma NewApp_flags_never_differ :
  ~ exists (h : http.HandlerFunc) (detailed_stacks : bool),
      StackIn500 (NewApp h detailed_stacks)
      <> StackInLog (NewApp h detailed_stacks).
Proof. intros (h & b & Hdiff). apply Hdiff. reflexivity. Qed.

(** C3, amended.  [NewApp] takes one boolean and sets both stack flags to
    it, so the two are equal in every App it returns (and the App starts
    with no error sink and no log sink); they are two fields of [App] all
    the same, and an App whose fields are set otherwise can hold any pair
    of values. *)
Theorem NewApp_sets_both_flags_alike :
  (forall (h : http.HandlerFunc) (detailed_stacks : bool),
      StackIn500 (NewApp h detailed_stacks) = detailed_stacks /\
      StackInLog (NewApp h detailed_stacks) = detailed_stacks /\
      Handler (NewApp h detailed_stacks) = h /\
      Errors (NewApp h detailed_stacks) = None /\
      Loggers (NewApp h detailed_stacks) = []) /\
  (forall (h : http.HandlerFunc) (in500 inLog : bool),
      exists app : App,
        StackIn500 app = in500 /\ StackInLog app = inLog /\ Handler app = h).
Proof.
  split.
  - intros h b. repeat split.
  - intros h in500 inLog.
    exists {| StackIn500 := in500; StackInLog := inLog; Handler := h;
              Errors := None; Loggers := [] |}.
    repeat split.
Qed.

(** ** The panic guard *)

Section GuardFacts.

Context {W : Type} `{!http.ResponseWriter W}.
Variable Stack : Z -> string.
Variable where_ : Z -> string.
Variable clock : nat -> time.Time.

(** What the guard does to the record and, through it, to the wrapped
    writer: the status call, then one write of the page. *)
Lemma guarded_spec (app : App) (e : fmt.any) (rec : LogRecord W) :
  let r := http.Write (http.WriteHeader (ResponseWriter rec) 500)
             (guardPage Stack app e) in
  ResponseWriter (guarded Stack app e rec) = fst r /\
  Status (guarded Stack app e rec) = 500 /\
  Bytes (guarded Stack app e rec) = uint64 (Bytes rec + fst (snd r)).
Proof.
  cbv zeta. unfold guarded.
  destruct (LogRecord_Write_spec (LogRecord_WriteHeader rec 500)
              (guardPage Stack app e)) as (_ & Hrw & Hbytes & Hstatus & _).
  cbv zeta in Hrw, Hbytes.
  destruct (LogRecord_WriteHeader_spec rec 500) as (Hrw' & Hbytes' & Hstatus' & _).
  rewrite Hrw' in Hrw, Hbytes. rewrite Hbytes' in Hbytes.
  rewrite Hstatus' in Hstatus. auto.
Qed.

(** C6. The short page is the fixed text
    [<html><body><h1>500 Internal server error</h1></body></html>]; the
    detailed page is the same heading, then
    [<p>A runtime error has just happened:</p><ul><li>{error}</li></ul><p>Stack trace of the problem:</p><pre>{stack}</pre>]
    with the error value and the stack in place, then the closing tags;
    and what the guard writes to the client for a recovered panic is one
    of the two, byte for byte. *)
Theorem error_pages_are_the_fixed_texts :
  errorPageShort
  = "<html><body><h1>500 Internal server error</h1></body></html>" /\
  (forall (e : fmt.any) (stack : string),
      fmt.Sprintf errorPageDetailed [fmt.Val e; fmt.Str stack]
      = "<html><body><h1>500 Internal server error</h1>"
        +:+ "<p>A runtime error has just happened:</p><ul><li>"
        +:+ fmt.value_text e
        +:+ "</li></ul><p>Stack trace of the problem:</p><pre>"
        +:+ stack
        +:+ "</pre>" +:+ "</body></html>") /\
  (forall (app : App) (r : http.Request) (e : fmt.any) (g : Goroutine W),
      ResponseWriter
        (rec (snd (HandlePanic Stack where_ clock app r (Some e) g)))
      = fst (http.Write
               (http.WriteHeader (ResponseWriter (rec g)) 500)
               (if StackIn500 app
                then "<html><body><h1>500 Internal server error</h1>"
                     +:+ "<p>A runtime error has just happened:</p><ul><li>"
                     +:+ fmt.value_text e
                     +:+ "</li></ul><p>Stack trace of the problem:</p><pre>"
                     +:+ Stack 2
                     +:+ "</pre></body></html>"
                else "<html><body><h1>500 Internal server error</h1></body></html>"))).
Proof.
  split; [reflexivity|].
  split.
  - intros e stack. rewrite Sprintf_errorPageDetailed.
    unfold spec_errorPageDetailed. append_norm. reflexivity.
  - intros app r e g. rewrite HandlePanic_recovered. cbn [snd rec].
    destruct (guarded_spec app e (rec g)) as (Hrw & _).
    rewrite Hrw. reflexivity.
Qed.

End GuardFacts.

(** ** Delivery of the sends *)

Section DeliveryFacts.

Context {W : Type}.

Lemma trySend_room {A : Type} (c : Chan A) (x : A) :
  (length (buf c) < cap c)%nat ->
  trySend c x = Some (mkChan (cap c) (buf c ++ [x])).
Proof.
  intros Hroom. unfold trySend.
  destruct (Nat.ltb_spec (length (buf c)) (cap c)); [reflexivity|lia].
Qed.

Lemma trySend_full {A : Type} (c : Chan A) (x : A) :
  (cap c <= length (buf c))%nat -> trySend c x = None.
Proof.
  intros Hfull. unfold trySend.
  destruct (Nat.ltb_spec (length (buf c)) (cap c)); [lia|reflexivity].
Qed.

Lemma perform_SendError_room (st : Store W) (ch : nat) (sk : ErrorSink)
  (msg : string) :
  errors st !! ch = Some sk ->
  (length (buf (equeue sk)) < cap (equeue sk))%nat ->
  perform (SendError ch msg) st
  = Some (set_errors st
            (<[ch := set_equeue sk
                       (mkChan (cap (equeue sk)) (buf (equeue sk) ++ [msg]))]>
               (errors st))).
Proof.
  intros Hch Hroom. unfold perform.
  now rewrite Hch, (trySend_room _ _ Hroom).
Qed.

Lemma perform_SendRecord_room (st : Store W) (ch : nat) (sk : Sink W)
  (rec : LogRecord W) :
  sinks st !! ch = Some sk ->
  (length (buf (queue sk)) < cap (queue sk))%nat ->
  perform (SendRecord ch rec) st
  = Some (set_sinks st
            (<[ch := set_queue sk
                       (mkChan (cap (queue sk)) (buf (queue sk) ++ [rec]))]>
               (sinks st))).
Proof.
  intros Hch Hroom. unfold perform.
  now rewrite Hch, (trySend_room _ _ Hroom).
Qed.

Lemma perform_SendRecord_full (st : Store W) (ch : nat) (sk : Sink W)
  (rec : LogRecord W) :
  sinks st !! ch = Some sk ->
  (cap (queue sk) <= length (buf (queue sk)))%nat ->
  perform (SendRecord ch rec) st = None.
Proof.
  intros Hch Hfull. unfold perform.
  now rewrite Hch, (trySend_full _ _ Hfull).
Qed.

End DeliveryFacts.

(** ** Panics: the response and the report *)

Section PanicFacts.

Context {W : Type} `{!http.ResponseWriter W}.
Variable Stack : Z -> string.
Variable where_ : Z -> string.
Variable clock : nat -> time.Time.

(** The handler ends against the record the way it ends against the
    wrapped writer. *)
Lemma exec_newRecord (app : App) (w : W) (r : http.Request) (t : time.Time) :
  exists rec' : LogRecord W,
    http.exec (Handler app r) (newRecord w r t)
    = (rec', snd (http.exec (Handler app r) w)) /\
    ResponseWriter rec' = fst (http.exec (Handler app r) w) /\
    Bytes rec' = uint64 (total (http.reported (Handler app r) w)) /\
    (http.reported (Handler app r) w = [] -> Bytes rec' = 0) /\
    Status rec'
    = List.last (http.statuses (Handler app r) w) http.StatusOK /\
    RequestCompleted rec' = time.zero.
Proof.
  pose proof (exec_through_record (Handler app r) (newRecord w r t))
    as (Hend & Hrw & Hbytes & Hnone & Hrange & Hstatus & Hsame).
  change (ResponseWriter (newRecord w r t)) with w in *.
  change (Bytes (newRecord w r t)) with 0 in *.
  change (Status (newRecord w r t)) with http.StatusOK in *.
  exists (fst (http.exec (Handler app r) (newRecord w r t))).
  split; [now rewrite <- Hend, <- surjective_pairing|].
  split; [exact Hrw|].
  split.
  { rewrite Z.add_0_l in Hbytes. rewrite <- Hbytes. symmetry.
    apply uint64_small, Hrange. split; [lia|reflexivity]. }
  split; [exact Hnone|].
  split; [exact Hstatus|].
  destruct Hsame as (_ & _ & _ & Hcompleted & _). exact Hcompleted.
Qed.

(** C2. When the handler panics: the status in the record is 500; the
    client gets the status call and then one page, the detailed one if
    [StackIn500] is set and the short one if not; and the guard reaches
    one send of one report if there is an error sink and none if there
    is not.  The report is the bracketed time of the panic, [[panic]],
    the error value, [[at <location>]], and then the stack trace on a
    line of its own if and only if [StackInLog] is set.  With room in
    the error sink's queue the report goes to its end. *)
Theorem panic_is_answered_and_reported (app : App) (w : W)
  (r : http.Request) (e : fmt.any) :
  snd (http.exec (Handler app r) w) = Some e ->
  let served := ServeHTTP Stack where_ clock app w r in
  let client := fst (http.exec (Handler app r) w) in
  let page :=
    if StackIn500 app then spec_errorPageDetailed e (Stack 2)
    else spec_errorPageShort in
  let report :=
    spec_report (spec_timestamp (clock 1)) e (where_ 2) (Stack 2)
      (StackInLog app) in
  fst served = Ok tt /\
  Status (rec (snd served)) = 500 /\
  ResponseWriter (rec (snd served))
  = fst (http.Write (http.WriteHeader client 500) page) /\
  sends (snd served)
  = match Errors app with
    | Some ch => [SendError ch report]
    | None => []
    end /\
  (Errors app = None ->
   forall st : Store W, deliver (sends (snd served)) st = ([], st)) /\
  (forall (ch : nat) (st : Store W) (sk : ErrorSink),
      Errors app = Some ch ->
      errors st !! ch = Some sk ->
      (length (buf (equeue sk)) < cap (equeue sk))%nat ->
      deliver (sends (snd served)) st
      = ([], set_errors st
               (<[ch := set_equeue sk
                          (mkChan (cap (equeue sk))
                             (buf (equeue sk) ++ [report]))]>
                  (errors st)))).
Proof.
  intros Hpanic. cbv zeta.
  destruct (exec_newRecord app w r (clock 0))
    as (rec' & Hexec & Hrw & _).
  rewrite Hpanic in Hexec.
  rewrite (ServeHTTP_panics _ _ _ _ _ _ _ _ Hexec). cbn [fst snd rec sends].
  destruct (guarded_spec Stack app e rec') as (Hclient & Hstatus & _).
  rewrite Hrw in Hclient.
  split; [reflexivity|]. split; [exact Hstatus|].
  split; [exact Hclient|].
  unfold guardSends, guardReport. rewrite Format_ApacheTime.
  split; [reflexivity|].
  split.
  - intros Hnone st. now rewrite Hnone.
  - intros ch st sk Hch Hsk Hroom. rewrite Hch.
    cbn [deliver]. now rewrite (perform_SendError_room _ _ _ _ Hsk Hroom).
Qed.

End PanicFacts.

(** A handler that panics with an error after a partial write, behind an
    App with an error sink and no stack traces: the client gets the status
    call and the short page after what was already written, and the error
    sink's queue gets the one-line report. *)
Lemma panic_is_answered_and_reported_witness :
  let '(app, st, ch) :=
    ErrorLogger 7%nat (NewApp Demo.faulty false) Demo.emptyStore in
  let served :=
    ServeHTTP Demo.Stack Demo.where_ Demo.clock app [] Demo.request in
  Status (rec (snd served)) = 500 /\
  ResponseWriter (rec (snd served))
  = [Demo.CallWrite "partial"; Demo.CallWriteHeader 500;
     Demo.CallWrite
       "<html><body><h1>500 Internal server error</h1></body></html>"] /\
  sends (snd served)
  = [SendError ch
       "[10/Oct/2000:13:55:36 -0700] [panic] index out of range [at handler.go:7]"].
Proof.
  pose proof (panic_is_answered_and_reported Demo.Stack Demo.where_
                Demo.clock
                (fst (fst (ErrorLogger 7%nat (NewApp Demo.faulty false)
                             Demo.emptyStore)))
                [] Demo.request (fmt.AnyError "index out of range")
                eq_refl) as (_ & Hstatus & Hclient & Hsends & _).
  cbv zeta in Hstatus, Hclient, Hsends.
  split; [exact Hstatus|]. split; [exact Hclient|exact Hsends].
Defined.

(** ** The byte counter and the status *)

Section CounterFacts.

Context {W : Type} `{!http.ResponseWriter W}.
Variable Stack : Z -> string.
Variable where_ : Z -> string.
Variable clock : nat -> time.Time.

(** C4. At the end of a request the byte counter of its record is the
    sum of the counts the wrapped writer reported for the writes made
    through the record, kept as a [uint64] (so it is that sum itself
    whenever the sum is one); and its status is 500 if the handler
    panicked, else the last status the handler set, else 200.  A handler
    that neither panics nor sets a status leaves status 200 and the sum
    of the counts of its own writes. *)
Theorem record_counts_bytes_and_keeps_status (app : App) (w : W)
  (r : http.Request) :
  let served := rec (snd (ServeHTTP Stack where_ clock app w r)) in
  let counts := reportedCounts Stack app w r in
  Bytes served = uint64 (total counts) /\
  (0 <= total counts < 2 ^ 64 -> Bytes served = total counts) /\
  Status served
  = match snd (http.exec (Handler app r) w) with
    | Some _ => 500
    | None => List.last (http.statuses (Handler app r) w) 200
    end /\
  (snd (http.exec (Handler app r) w) = None ->
   http.statuses (Handler app r) w = [] ->
   Status served = 200 /\
   counts = http.reported (Handler app r) w /\
   (0 <= total (http.reported (Handler app r) w) < 2 ^ 64 ->
    Bytes served = total (http.reported (Handler app r) w))).
Proof.
  cbv zeta.
  destruct (exec_newRecord app w r (clock 0))
    as (rec' & Hexec & Hrw & Hbytes & _ & Hstatus & _).
  assert (Hsum :
    Bytes (rec (snd (ServeHTTP Stack where_ clock app w r)))
    = uint64 (total (reportedCounts Stack app w r)) /\
    Status (rec (snd (ServeHTTP Stack where_ clock app w r)))
    = match snd (http.exec (Handler app r) w) with
      | Some _ => 500
      | None => List.last (http.statuses (Handler app r) w) 200
      end).
  { unfold reportedCounts.
    destruct (http.exec (Handler app r) w) as [client [e|]] eqn:Hw;
      cbn [fst snd] in *.
    - rewrite (ServeHTTP_panics _ _ _ _ _ _ _ _ Hexec). cbn [snd rec].
      destruct (guarded_spec Stack app e rec') as (_ & Hst & Hb).
      rewrite Hrw in Hb. split; [|exact Hst].
      rewrite Hb, Hbytes, uint64_uint64_add, total_app.
      f_equal. cbn [total fold_right]. lia.
    - rewrite (ServeHTTP_returns _ _ _ _ _ _ _ Hexec). cbn [snd rec].
      split; [exact Hbytes|exact Hstatus]. }
  destruct Hsum as (Hb & Hs).
  split; [exact Hb|].
  split; [intros Hsmall; rewrite Hb; now apply uint64_small|].
  split; [exact Hs|].
  intros Hret Hnone.
  assert (Hcounts : reportedCounts Stack app w r = http.reported (Handler app r) w).
  { unfold reportedCounts.
    destruct (http.exec (Handler app r) w) as [client [e|]];
      [discriminate Hret|reflexivity]. }
  split; [now rewrite Hs, Hret, Hnone|].
  split; [exact Hcounts|].
  intros Hsmall. rewrite Hb, Hcounts. now apply uint64_small.
Qed.

(** After a panic the record has no completion time and the goroutine
    has reached no send of it. *)
Lemma panic_skips_completion_and_fanout (app : App) (w : W)
  (r : http.Request) (e : fmt.any) :
  snd (http.exec (Handler app r) w) = Some e ->
  let served := snd (ServeHTTP Stack where_ clock app w r) in
  RequestCompleted (rec served) = time.zero /\
  forall (ch : nat) (sent : LogRecord W),
    ~ In (SendRecord ch sent) (sends served).
Proof.
  intros Hpanic. cbv zeta.
  destruct (exec_newRecord app w r (clock 0))
    as (rec' & Hexec & _ & _ & _ & _ & Hcompleted).
  rewrite Hpanic in Hexec.
  rewrite (ServeHTTP_panics _ _ _ _ _ _ _ _ Hexec). cbn [snd rec sends].
  split.
  - destruct (guarded_same_request Stack app e rec')
      as (_ & _ & _ & Hsame & _).
    now rewrite Hsame.
  - intros ch sent. unfold guardSends.
    destruct (Errors app) as [errs|]; cbn;
      [intros [Hin|[]]; discriminate Hin|intros []].
Qed.

(** After a return the record is completed at the second clock reading
    and the goroutine has reached one send of it per logger, in order. *)
Lemma return_completes_and_fans_out (app : App) (w : W) (r : http.Request) :
  snd (http.exec (Handler app r) w) = None ->
  let served := snd (ServeHTTP Stack where_ clock app w r) in
  RequestCompleted (rec served) = clock 1 /\
  sends served = map (fun ch => SendRecord ch (rec served)) (Loggers app).
Proof.
  intros Hret. cbv zeta.
  destruct (exec_newRecord app w r (clock 0)) as (rec' & Hexec & _).
  rewrite Hret in Hexec.
  rewrite (ServeHTTP_returns _ _ _ _ _ _ _ Hexec). cbn [snd rec sends].
  split; reflexivity.
Qed.

End CounterFacts.

(** A handler that writes 7 and 5 bytes and returns leaves 12 bytes and
    status 200. *)
Lemma record_counts_bytes_and_keeps_status_witness :
  let served :=
    rec (snd (ServeHTTP Demo.Stack Demo.where_ Demo.clock
                (NewApp Demo.hello false) [] Demo.request)) in
  Status served = 200 /\ Bytes served = 12.
Proof.
  destruct (record_counts_bytes_and_keeps_status Demo.Stack Demo.where_
              Demo.clock (NewApp Demo.hello false) [] Demo.request)
    as (_ & _ & _ & Hplain).
  destruct (Hplain eq_refl eq_refl) as (Hstatus & _ & Hbytes).
  split; [exact Hstatus|].
  apply Hbytes. vm_compute. split; [discriminate|reflexivity].
Defined.

(** ** Panics and the log sinks *)

(** C1 does not hold of the code.  With one log sink registered and a
    handler that panics, the request ends with status 500 in its record,
    but with the zero time as completion time and with no send of the
    record reached: the sink's queue stays empty.  The same App with a
    handler that returns completes the record and sends it to the sink. *)
Theorem panicking_request_reaches_no_log_sink :
  let '(app, st, ch) :=
    AddLogger CombinedFormat 3%nat (NewApp Demo.faulty false)
      Demo.emptyStore in
  let served :=
    ServeHTTP Demo.Stack Demo.where_ Demo.clock app [] Demo.request in
  let sibling :=
    ServeHTTP Demo.Stack Demo.where_ Demo.clock
      (set_Loggers (NewApp Demo.hello false) (Loggers app)) [] Demo.request in
  Loggers app = [ch] /\
  fst served = Ok tt /\
  Status (rec (snd served)) = 500 /\
  RequestCompleted (rec (snd served)) = time.zero /\
  sends (snd served) = [] /\
  deliver (sends (snd served)) st = ([], st) /\
  (buf ∘ queue) <$> (sinks st !! ch) = Some [] /\
  RequestCompleted (rec (snd sibling)) = Demo.clock 1 /\
  sends (snd sibling) = [SendRecord ch (rec (snd sibling))] /\
  (buf ∘ queue) <$> (sinks (snd (deliver (sends (snd sibling)) st)) !! ch)
  = Some [rec (snd sibling)].
Proof. lazy delta [AddLogger] beta iota zeta. repeat split; reflexivity. Qed.

(** ** The queues of the log sinks *)

Section SinkFacts.

Context {W : Type} `{!http.ResponseWriter W}.
Variable Stack : Z -> string.
Variable where_ : Z -> string.
Variable clock : nat -> time.Time.

Lemma bounded_insert (st : Store W) (ch : nat) (sk : Sink W) :
  bounded st ->
  cap (queue sk) = 1000%nat ->
  (length (buf (queue sk)) <= 1000)%nat ->
  bounded (set_sinks st (<[ch := sk]> (sinks st))).
Proof.
  intros Hst Hcap Hlen ch' sk' Hlookup. cbn [set_sinks sinks] in Hlookup.
  apply lookup_insert_Some in Hlookup as [[_ <-]|[_ Hold]].
  - now split.
  - exact (Hst ch' sk' Hold).
Qed.

Lemma reachable_bounded (st : Store W) : reachable st -> bounded st.
Proof.
  induction 1 as [|f log app st _ IH|log app st _ IH
                  |s st st' _ IH Hsend|ch st st' _ IH Hrecv].
  - intros ch sk Hlookup. cbn in Hlookup.
    rewrite lookup_empty in Hlookup. discriminate.
  - refine (bounded_insert st _ _ IH _ _); [reflexivity|cbn; lia].
  - exact IH.
  - destruct s as [ch rec|ch msg]; cbn [perform] in Hsend.
    + destruct (sinks st !! ch) as [sk|] eqn:Hch; [|discriminate].
      unfold trySend in Hsend.
      destruct (Nat.ltb_spec (length (buf (queue sk))) (cap (queue sk)))
        as [Hroom|_]; [|discriminate].
      injection Hsend as <-.
      destruct (IH ch sk Hch) as [Hcap Hlen].
      apply bounded_insert; [exact IH|exact Hcap|].
      cbn [set_queue queue buf]. rewrite length_app. cbn [length]. lia.
    + destruct (errors st !! ch) as [sk|]; [|discriminate].
      destruct (trySend (equeue sk) msg); [|discriminate].
      injection Hsend as <-. exact IH.
  - unfold consume in Hrecv.
    destruct (sinks st !! ch) as [sk|] eqn:Hch; [|discriminate].
    unfold tryRecv in Hrecv.
    destruct (buf (queue sk)) as [|x rest] eqn:Hbuf; [discriminate|].
    injection Hrecv as <-.
    destruct (IH ch sk Hch) as [Hcap Hlen].
    refine (bounded_insert st ch _ IH _ _); [exact Hcap|].
    cbn [set_queue queue buf]. rewrite Hbuf in Hlen. cbn [length] in Hlen.
    lia.
Qed.

Lemma deliver_reachable (pending : list (Send W)) :
  forall st : Store W, reachable st -> reachable (snd (deliver pending st)).
Proof.
  induction pending as [|s pending IH]; intros st Hst; cbn [deliver].
  - exact Hst.
  - destruct (perform s st) as [st'|] eqn:Hsend; [|exact Hst].
    apply IH. exact (reach_perform s st st' Hst Hsend).
Qed.

(** C9. The queue of every log sink has capacity 1000.  A request that
    reaches the send of its record to a sink whose queue holds 1000
    records does not get past it: the send and all that follows stay
    pending and the store is as it was, nothing dropped and no error
    raised; so a request served by an App whose first logger is that sink
    keeps all its sends pending.  Once the consumer has taken a record
    out, the send goes through and the record is the newest in the
    queue. *)
Theorem log_sink_queue_is_bounded_and_blocks (st : Store W) (ch : nat)
  (sk : Sink W) :
  reachable st ->
  sinks st !! ch = Some sk ->
  cap (queue sk) = 1000%nat /\
  (length (buf (queue sk)) = 1000%nat ->
   forall (record : LogRecord W) (rest : list (Send W)),
     perform (SendRecord ch record) st = None /\
     deliver (SendRecord ch record :: rest) st
     = (SendRecord ch record :: rest, st) /\
     (forall (app : App) (w : W) (r : http.Request) (others : list nat),
         snd (http.exec (Handler app r) w) = None ->
         Loggers app = ch :: others ->
         let g := snd (ServeHTTP Stack where_ clock app w r) in
         sends g = map (fun c => SendRecord c (rec g)) (Loggers app) /\
         deliver (sends g) st = (sends g, st)) /\
     exists (st1 st2 : Store W) (sk2 : Sink W),
       consume ch st = Some st1 /\
       deliver [SendRecord ch record] st1 = ([], st2) /\
       sinks st2 !! ch = Some sk2 /\
       cap (queue sk2) = 1000%nat /\
       buf (queue sk2) = tl (buf (queue sk)) ++ [record]).
Proof.
  intros Hreach Hch.
  destruct (reachable_bounded st Hreach ch sk Hch) as [Hcap _].
  split; [exact Hcap|].
  intros Hfull record rest.
  assert (Hblocked : perform (SendRecord ch record) st = None).
  { apply (perform_SendRecord_full st ch sk record Hch). lia. }
  split; [exact Hblocked|].
  split; [cbn [deliver]; now rewrite Hblocked|].
  split.
  { intros app w r others Hret Hloggers. cbv zeta.
    destruct (return_completes_and_fans_out Stack where_ clock app w r Hret)
      as (_ & Hsends).
    cbv zeta in Hsends. split; [exact Hsends|].
    rewrite Hsends, Hloggers. cbn [map deliver].
    now rewrite (perform_SendRecord_full st ch sk _ Hch) by lia. }
  destruct (buf (queue sk)) as [|oldest waiting] eqn:Hbuf;
    [cbn in Hfull; lia|].
  cbn [length] in Hfull. cbn [tl].
  set (q1 := mkChan (cap (queue sk)) waiting).
  set (st1 :=
    set_printed
      (set_sinks st (<[ch := set_queue sk q1]> (sinks st)))
      (<[dest sk := default [] (printed st !! dest sk)
                    ++ [format sk oldest]]> (printed st))).
  assert (Hch1 : sinks st1 !! ch = Some (set_queue sk q1)).
  { subst st1. cbn [set_printed set_sinks sinks]. apply lookup_insert_eq. }
  assert (Hroom : (length (buf (queue (set_queue sk q1)))
                   < cap (queue (set_queue sk q1)))%nat).
  { cbn [set_queue queue buf cap q1]. lia. }
  pose proof (perform_SendRecord_room st1 ch _ record Hch1 Hroom) as Hsend.
  eexists st1, _, _.
  split.
  { unfold consume, tryRecv. now rewrite Hch, Hbuf. }
  split; [cbn [deliver]; rewrite Hsend; reflexivity|].
  split; [cbn [set_sinks sinks]; apply lookup_insert_eq|].
  split; [exact Hcap|reflexivity].
Qed.

End SinkFacts.

(** A sink added to an empty store, and a thousand records sent to it with
    no consumer running: the next send stays pending. *)
Lemma log_sink_queue_is_bounded_and_blocks_witness :
  let added :=
    AddLogger Request 3%nat (NewApp Demo.hello false) Demo.emptyStore in
  let app := fst (fst added) in
  let ch := snd added in
  let record :=
    rec (snd (ServeHTTP Demo.Stack Demo.where_ Demo.clock app []
                Demo.request)) in
  let full :=
    snd (deliver (repeat (SendRecord ch record) 1000) (snd (fst added))) in
  deliver [SendRecord ch record] full = ([SendRecord ch record], full).
Proof.
  intros added app ch record full.
  assert (Hreach : reachable full).
  { apply deliver_reachable.
    exact (reach_AddLogger Request 3%nat (NewApp Demo.hello false)
             Demo.emptyStore reach_start). }
  assert (Hch : sinks full !! ch
                = Some {| queue := mkChan 1000 (repeat record 1000);
                          format := Request; dest := 3%nat |}).
  { vm_compute. reflexivity. }
  destruct (log_sink_queue_is_bounded_and_blocks Demo.Stack Demo.where_
              Demo.clock full ch _ Hreach Hch)
    as [_ Hfull].
  destruct (Hfull (repeat_length record 1000) record [])
    as (_ & Hdeliver & _).
  exact Hdeliver.
Defined.

(** * Further properties *)

(** ** The record between the handler and the wrapped writer *)

Section TransparencyFacts.

Context {W : Type} `{!http.ResponseWriter W}.

(** The handler is told the same counts and sets the same statuses
    through the record as on the wrapped writer. *)
Lemma reported_through_record (b : http.Body) :
  forall rec : LogRecord W,
    http.reported b rec = http.reported b (ResponseWriter rec) /\
    http.statuses b rec = http.statuses b (ResponseWriter rec).
Proof.
  induction b as [|e|p k IH|status k IH]; intros rec.
  - split; reflexivity.
  - split; reflexivity.
  - cbn [http.reported http.statuses].
    change (http.Write rec p) with (LogRecord_Write rec p).
    pose proof (LogRecord_Write_spec rec p) as Hw. cbv zeta in Hw.
    destruct (LogRecord_Write rec p) as [rec' [n' err']].
    destruct (http.Write (ResponseWriter rec) p) as [w' [n err]].
    cbn [fst snd] in Hw. destruct Hw as (Hres & Hrw & _).
    injection Hres as -> ->.
    destruct (IH n err rec') as (IHr & IHs). rewrite Hrw in IHr, IHs.
    split; [now rewrite IHr|exact IHs].
  - cbn [http.reported http.statuses].
    change (http.WriteHeader rec status)
      with (LogRecord_WriteHeader rec status).
    destruct (LogRecord_WriteHeader_spec rec status) as (Hrw & _).
    destruct (IH (LogRecord_WriteHeader rec status)) as (IHr & IHs).
    rewrite Hrw in IHr, IHs.
    split; [exact IHr|now rewrite IHs].
Qed.

(** X1. The record passes everything through.  A [Write] on it returns
    the count and the error the wrapped writer returned, also when that is
    an error or a short count; and a handler run with the record for its
    writer ends the same way (return or panic, with the same value), is
    told the same counts, sets the same statuses, and leaves the wrapped
    writer in the same state as when it is run on the wrapped writer
    itself. *)
Theorem record_passes_everything_through (b : http.Body)
  (rec : LogRecord W) :
  (forall p : string,
      snd (LogRecord_Write rec p) = snd (http.Write (ResponseWriter rec) p) /\
      ResponseWriter (fst (LogRecord_Write rec p))
      = fst (http.Write (ResponseWriter rec) p)) /\
  (forall status : Z,
      ResponseWriter (LogRecord_WriteHeader rec status)
      = http.WriteHeader (ResponseWriter rec) status) /\
  snd (http.exec b rec) = snd (http.exec b (ResponseWriter rec)) /\
  ResponseWriter (fst (http.exec b rec))
  = fst (http.exec b (ResponseWriter rec)) /\
  http.reported b rec = http.reported b (ResponseWriter rec) /\
  http.statuses b rec = http.statuses b (ResponseWriter rec).
Proof.
  split.
  { intros p. destruct (LogRecord_Write_spec rec p) as (Hres & Hrw & _).
    split; [exact Hres|exact Hrw]. }
  split; [intros status; apply LogRecord_WriteHeader_spec|].
  destruct (exec_through_record b rec) as (Hend & Hrw & _).
  destruct (reported_through_record b rec) as (Hr & Hs).
  repeat split; assumption.
Qed.

(** X2. The byte counter is a [uint64] and wraps.  One [Write] through a
    record whose counter is in range leaves it in range; it adds the
    count the wrapped writer reported when the sum fits, starts over from
    zero past [2^64 - 1], and comes down from [2^64] when the wrapped
    writer reported a negative count that takes the sum below zero. *)
Theorem byte_counter_wraps_around (rec : LogRecord W) (p : string) :
  0 <= Bytes rec < 2 ^ 64 ->
  let n := fst (snd (http.Write (ResponseWriter rec) p)) in
  let after := Bytes (fst (LogRecord_Write rec p)) in
  0 <= after < 2 ^ 64 /\
  (0 <= Bytes rec + n < 2 ^ 64 -> after = Bytes rec + n) /\
  (2 ^ 64 <= Bytes rec + n < 2 * 2 ^ 64 -> after = Bytes rec + n - 2 ^ 64) /\
  (- 2 ^ 64 <= Bytes rec + n < 0 -> after = Bytes rec + n + 2 ^ 64).
Proof.
  intros Hrange. cbv zeta.
  destruct (LogRecord_Write_spec rec p) as (_ & _ & Hbytes & _).
  cbv zeta in Hbytes. rewrite Hbytes.
  set (sum := Bytes rec + fst (snd (http.Write (ResponseWriter rec) p))).
  split; [apply uint64_range|].
  split; [intros Hfit; now apply uint64_small|].
  split.
  - intros Hover. unfold uint64.
    symmetry. apply (Z.mod_unique_pos sum (2 ^ 64) 1); lia.
  - intros Hunder. unfold uint64.
    symmetry. apply (Z.mod_unique_pos sum (2 ^ 64) (-1)); lia.
Qed.

End TransparencyFacts.

(** A write on a closed connection reports -1: the counter of a fresh
    record goes to [2^64 - 1]. *)
Lemma byte_counter_wraps_around_witness :
  Bytes (fst (LogRecord_Write (Samples.blank Samples.closed) "hello"))
  = 18446744073709551615.
Proof.
  destruct (byte_counter_wraps_around (Samples.blank Samples.closed) "hello")
    as (_ & _ & _ & Hunder).
  - vm_compute. split; [discriminate|reflexivity].
  - rewrite Hunder; [reflexivity|].
    vm_compute. split; [discriminate|reflexivity].
Defined.

(** ** Requests whose handler returns, and Apps without sinks *)

Section ServedFacts.

Context {W : Type} `{!http.ResponseWriter W}.
Variable Stack : Z -> string.
Variable where_ : Z -> string.
Variable clock : nat -> time.Time.

(** The record a request ends with, when its handler returns. *)
Lemma returned_record (app : App) (w : W) (r : http.Request) :
  snd (http.exec (Handler app r) w) = None ->
  exists rec' : LogRecord W,
    http.exec (Handler app r) (newRecord w r (clock 0)) = (rec', None) /\
    ServeHTTP Stack where_ clock app w r
    = (Ok tt,
       {| rec := set_RequestCompleted rec' (clock 1);
          ticks := 2;
          sends := map (fun ch => SendRecord ch
                                    (set_RequestCompleted rec' (clock 1)))
                     (Loggers app) |}) /\
    ResponseWriter rec' = fst (http.exec (Handler app r) w) /\
    Bytes rec' = uint64 (total (http.reported (Handler app r) w)) /\
    Status rec' = List.last (http.statuses (Handler app r) w) 200 /\
    same_request rec' (newRecord w r (clock 0)).
Proof.
  intros Hret.
  destruct (exec_newRecord app w r (clock 0))
    as (rec' & Hexec & Hrw & Hbytes & _ & Hstatus & _).
  rewrite Hret in Hexec. exists rec'.
  split; [exact Hexec|].
  split; [exact (ServeHTTP_returns _ _ _ _ _ _ _ Hexec)|].
  split; [exact Hrw|]. split; [exact Hbytes|]. split; [exact Hstatus|].
  pose proof (exec_through_record (Handler app r) (newRecord w r (clock 0)))
    as Hthrough.
  rewrite Hexec in Hthrough. cbn [fst] in Hthrough. apply Hthrough.
Qed.

(** X3. When the handler returns, the guard does nothing: [ServeHTTP]
    returns; the client has got the calls of the handler and no others (no
    500, no error page); the clock has been read twice, for the start and
    for the completion of the record; no error report is sent; and the
    sends reached are one per logger of the App, in the order of
    [Loggers], each of the completed record. *)
Theorem returning_request_is_left_alone (app : App) (w : W)
  (r : http.Request) :
  snd (http.exec (Handler app r) w) = None ->
  let served := ServeHTTP Stack where_ clock app w r in
  let g := snd served in
  fst served = Ok tt /\
  ResponseWriter (rec g) = fst (http.exec (Handler app r) w) /\
  ticks g = 2%nat /\
  RequestStarted (rec g) = clock 0 /\
  RequestCompleted (rec g) = clock 1 /\
  sends g = map (fun ch => SendRecord ch (rec g)) (Loggers app) /\
  (forall (ch : nat) (msg : string), ~ In (SendError ch msg) (sends g)).
Proof.
  intros Hret. cbv zeta.
  destruct (returned_record app w r Hret)
    as (rec' & _ & Hserved & Hrw & _ & _ & Hsame).
  rewrite Hserved. cbn [fst snd rec ticks sends].
  destruct Hsame as (_ & _ & Hstarted & _).
  repeat split; try assumption.
  intros ch msg Hin. apply in_map_iff in Hin as (c & Hc & _). discriminate Hc.
Qed.

(** X4. An App as [NewApp] returns it has no sink: whatever its handler
    does, serving a request reaches no send, so nothing is ever queued
    for a log; a panic is answered with the 500 page and leaves no
    report. *)
Theorem new_app_logs_nothing (h : http.HandlerFunc) (detailed_stacks : bool)
  (w : W) (r : http.Request) :
  let served := ServeHTTP Stack where_ clock (NewApp h detailed_stacks) w r in
  fst served = Ok tt /\
  sends (snd served) = [] /\
  (forall st : Store W, deliver (sends (snd served)) st = ([], st)) /\
  (forall e : fmt.any,
      snd (http.exec (h r) w) = Some e ->
      Status (rec (snd served)) = 500 /\
      ResponseWriter (rec (snd served))
      = fst (http.Write (http.WriteHeader (fst (http.exec (h r) w)) 500)
               (if detailed_stacks
                then spec_errorPageDetailed e (Stack 2)
                else spec_errorPageShort))).
Proof.
  cbv zeta.
  destruct (exec_newRecord (NewApp h detailed_stacks) w r (clock 0))
    as (rec' & Hexec & Hrw & _).
  change (Handler (NewApp h detailed_stacks) r) with (h r) in *.
  destruct (snd (http.exec (h r) w)) as [e|] eqn:Hend.
  - rewrite (ServeHTTP_panics Stack where_ clock (NewApp h detailed_stacks)
               w r rec' e Hexec).
    cbn [fst snd rec sends]. unfold guardSends. cbn [Errors NewApp].
    split; [reflexivity|]. split; [reflexivity|].
    split; [reflexivity|].
    intros e' He'. injection He' as <-.
    destruct (guarded_spec Stack (NewApp h detailed_stacks) e rec')
      as (Hclient & Hstatus & _).
    rewrite Hrw in Hclient. split; [exact Hstatus|exact Hclient].
  - rewrite (ServeHTTP_returns Stack where_ clock (NewApp h detailed_stacks)
               w r rec' Hexec).
    cbn [fst snd rec sends Loggers NewApp map].
    split; [reflexivity|]. split; [reflexivity|].
    split; [reflexivity|]. intros e' He'. discriminate He'.
Qed.

(** X10. The lines of a request whose handler returns.  The combined
    line is the remote address up to its last colon, [-], [-], the time
    the request started, the method, the request URI and the protocol
    with single spaces between them, the last status the handler set (200
    if none), the byte counter, and the Referer and User-Agent headers as
    they came, each between double quotes; a header that is missing is an
    empty string and shows as two quotes with nothing between.  The
    performance line has the same start and then the milliseconds between
    the two clock readings. *)
Theorem lines_of_a_returning_request (app : App) (w : W) (r : http.Request) :
  snd (http.exec (Handler app r) w) = None ->
  let record := rec (snd (ServeHTTP Stack where_ clock app w r)) in
  let start :=
    hostOf (http.RemoteAddr r) +:+ " - - ["
    +:+ spec_timestamp (clock 0) +:+ "] " +:+ strings.dquote
    +:+ http.Method r +:+ " " +:+ http.RequestURI r +:+ " " +:+ http.Proto r
    +:+ strings.dquote +:+ " "
    +:+ fmt.decimal (List.last (http.statuses (Handler app r) w) 200)
    +:+ " "
    +:+ fmt.decimal (uint64 (total (http.reported (Handler app r) w))) in
  CombinedFormat record
  = start +:+ " " +:+ strings.dquote +:+ http.Header r "Referer"
    +:+ strings.dquote +:+ " " +:+ strings.dquote
    +:+ http.Header r "User-Agent" +:+ strings.dquote /\
  PerfFormat record
  = start +:+ " "
    +:+ fmt.decimal (Z.quot (time.Sub (clock 1) (clock 0)) 1000000)
    +:+ "ms" /\
  (http.Header r "Referer" = "" ->
   http.Header r "User-Agent" = "" ->
   CombinedFormat record
   = start +:+ " " +:+ strings.dquote +:+ strings.dquote +:+ " "
     +:+ strings.dquote +:+ strings.dquote).
Proof.
  intros Hret. cbv zeta.
  destruct (returned_record app w r Hret)
    as (rec' & _ & Hserved & _ & Hbytes & Hstatus & Hsame).
  rewrite Hserved. cbn [snd rec].
  destruct Hsame as (Hhost & Hindent & Hstarted & _ & Hreq & Href & Hua).
  assert (Hstart :
    spec_line_start (set_RequestCompleted rec' (clock 1))
      (time.Format (clock 0) ApacheTime)
    = hostOf (http.RemoteAddr r) +:+ " - - ["
      +:+ spec_timestamp (clock 0) +:+ "] " +:+ strings.dquote
      +:+ http.Method r +:+ " " +:+ http.RequestURI r +:+ " "
      +:+ http.Proto r +:+ strings.dquote +:+ " "
      +:+ fmt.decimal (List.last (http.statuses (Handler app r) w) 200)
      +:+ " "
      +:+ fmt.decimal (uint64 (total (http.reported (Handler app r) w)))).
  { unfold spec_line_start.
    cbn [set_RequestCompleted Host Indent Request Status Bytes].
    rewrite Hhost, Hindent, Hreq, Hstatus, Hbytes, Format_ApacheTime.
    cbn [newRecord set_Host Host Indent Request].
    generalize (spec_timestamp (clock 0)). intros ts.
    unfold strings.dquote. append_norm. reflexivity. }
  assert (Hcombined :
    CombinedFormat (set_RequestCompleted rec' (clock 1))
    = spec_line_start (set_RequestCompleted rec' (clock 1))
        (time.Format (clock 0) ApacheTime)
      +:+ " " +:+ strings.dquote +:+ http.Header r "Referer"
      +:+ strings.dquote +:+ " " +:+ strings.dquote
      +:+ http.Header r "User-Agent" +:+ strings.dquote).
  { rewrite CombinedFormat_line.
    cbn [set_RequestCompleted RequestStarted Referer UserAgent].
    now rewrite Hstarted, Href, Hua. }
  split; [now rewrite Hcombined, Hstart|].
  split.
  - rewrite PerfFormat_line.
    cbn [set_RequestCompleted RequestStarted RequestCompleted].
    rewrite Hstarted.
    change (RequestStarted (newRecord w r (clock 0))) with (clock 0).
    now rewrite Hstart.
  - intros Hnoref Hnoua. rewrite Hcombined, Hstart, Hnoref, Hnoua.
    now rewrite !append_nil_l.
Qed.

End ServedFacts.

(** A handler that writes twice and returns, behind two loggers. *)
Lemma returning_request_is_left_alone_witness :
  let app := set_Loggers (NewApp Demo.hello true) [4%nat; 9%nat] in
  let g :=
    snd (ServeHTTP Demo.Stack Demo.where_ Demo.clock app [] Demo.request) in
  ResponseWriter (rec g) = [Demo.CallWrite "hello, "; Demo.CallWrite "world"]
  /\ sends g = [SendRecord 4%nat (rec g); SendRecord 9%nat (rec g)].
Proof.
  assert (Hret :
    snd (http.exec
           (Handler (set_Loggers (NewApp Demo.hello true) [4%nat; 9%nat])
              Demo.request)
           ([] : list Demo.Call)) = None) by reflexivity.
  destruct (returning_request_is_left_alone Demo.Stack Demo.where_ Demo.clock
              (set_Loggers (NewApp Demo.hello true) [4%nat; 9%nat])
              [] Demo.request Hret)
    as (_ & Hclient & _ & _ & _ & Hsends & _).
  split; [exact Hclient|exact Hsends].
Defined.

(** The two lines of a request for [/x] answered with twelve bytes in two
    and a half milliseconds. *)
Lemma lines_of_a_returning_request_witness :
  let record :=
    rec (snd (ServeHTTP Demo.Stack Demo.where_ Demo.clock
                (NewApp Demo.hello false) [] Demo.request)) in
  CombinedFormat record
  = "203.0.113.5 - - [10/Oct/2000:13:55:36 -0700] " +:+ strings.dquote
    +:+ "GET /x HTTP/1.1" +:+ strings.dquote +:+ " 200 12 "
    +:+ strings.dquote +:+ "-" +:+ strings.dquote +:+ " "
    +:+ strings.dquote +:+ "test-agent" +:+ strings.dquote /\
  PerfFormat record
  = "203.0.113.5 - - [10/Oct/2000:13:55:36 -0700] " +:+ strings.dquote
    +:+ "GET /x HTTP/1.1" +:+ strings.dquote +:+ " 200 12 2ms".
Proof.
  assert (Hret :
    snd (http.exec (Handler (NewApp Demo.hello false) Demo.request)
           ([] : list Demo.Call)) = None) by reflexivity.
  destruct (lines_of_a_returning_request Demo.Stack Demo.where_ Demo.clock
              (NewApp Demo.hello false) [] Demo.request Hret)
    as (Hcombined & Hperf & _).
  cbv zeta in Hcombined, Hperf. cbv zeta.
  rewrite Hcombined, Hperf. split; vm_compute; reflexivity.
Defined.

(** ** Setting up the sinks *)

Section SetupFacts.

Context {W : Type}.

Lemma setup_reachable (app : App) (st : Store W) :
  setup app st -> reachable st.
Proof.
  induction 1 as [h b|f log app st _ IH|log app st _ IH
                  |s app st st' _ IH Hsend|ch app st st' _ IH Hrecv].
  - exact reach_start.
  - exact (reach_AddLogger f log app st IH).
  - exact (reach_ErrorLogger log app st IH).
  - exact (reach_perform s st st' IH Hsend).
  - exact (reach_consume ch st st' IH Hrecv).
Qed.

(** A send or a receive leaves every channel of the store in place, with
    the capacity it has. *)
Lemma perform_keeps_channels (s : Send W) (st st' : Store W) :
  perform s st = Some st' ->
  (forall ch : nat, is_Some (sinks st' !! ch) <-> is_Some (sinks st !! ch)) /\
  (forall ch : nat, is_Some (errors st' !! ch) <-> is_Some (errors st !! ch)) /\
  (forall (ch : nat) (sk' : ErrorSink),
      errors st' !! ch = Some sk' ->
      exists sk : ErrorSink,
        errors st !! ch = Some sk /\ cap (equeue sk') = cap (equeue sk)).
Proof.
  intros Hsend. destruct s as [c record|c msg]; cbn [perform] in Hsend.
  - destruct (sinks st !! c) as [sk|] eqn:Hc; [|discriminate].
    destruct (trySend (queue sk) record) as [q|]; [|discriminate].
    injection Hsend as <-. cbn [set_sinks sinks errors].
    split; [|split; [reflexivity|eauto]].
    intros ch. rewrite lookup_insert_is_Some.
    split; [intros [<-|[_ Hold]]; [now rewrite Hc|exact Hold]|].
    intros Hold. destruct (decide (c = ch)); [now left|now right].
  - destruct (errors st !! c) as [sk|] eqn:Hc; [|discriminate].
    unfold trySend in Hsend.
    destruct (length (buf (equeue sk)) <? cap (equeue sk))%nat;
      [|discriminate].
    injection Hsend as <-. cbn [set_errors sinks errors].
    split; [reflexivity|]. split.
    + intros ch. rewrite lookup_insert_is_Some.
      split; [intros [<-|[_ Hold]]; [now rewrite Hc|exact Hold]|].
      intros Hold. destruct (decide (c = ch)); [now left|now right].
    + intros ch sk' Hlookup.
      apply lookup_insert_Some in Hlookup as [[<- <-]|[_ Hold]]; eauto.
Qed.

Lemma consume_keeps_channels (c : nat) (st st' : Store W) :
  consume c st = Some st' ->
  (forall ch : nat, is_Some (sinks st' !! ch) <-> is_Some (sinks st !! ch)) /\
  errors st' = errors st.
Proof.
  unfold consume. intros Hrecv.
  destruct (sinks st !! c) as [sk|] eqn:Hc; [|discriminate].
  destruct (tryRecv (queue sk)) as [[record q]|]; [|discriminate].
  injection Hrecv as <-. cbn [set_printed set_sinks sinks errors].
  split; [|reflexivity].
  intros ch. rewrite lookup_insert_is_Some.
  split; [intros [<-|[_ Hold]]; [now rewrite Hc|exact Hold]|].
  intros Hold. destruct (decide (c = ch)); [now left|now right].
Qed.

Lemma fresh_channel {A : Type} (m : gmap nat A) : m !! fresh (dom m) = None.
Proof. apply not_elem_of_dom, is_fresh. Qed.

Lemma setup_well_formed (app : App) (st : Store W) :
  setup app st -> well_formed app st.
Proof.
  induction 1 as [h b|f log app st _ IH|log app st _ IH
                  |s app st st' _ IH Hsend|ch app st st' _ IH Hrecv].
  - split; [constructor|]. split.
    + intros ch Hin. cbn in Hin. now apply elem_of_nil in Hin.
    + intros ch Herr. discriminate Herr.
  - destruct IH as (Hnodup & Hlog & Herr). unfold well_formed.
    cbn [AddLogger fst snd set_Loggers Loggers Errors set_sinks sinks errors].
    split; [|split].
    + apply NoDup_app. split; [exact Hnodup|]. split; [|apply NoDup_singleton].
      intros ch Hin Hnew. apply list_elem_of_singleton in Hnew. subst ch.
      destruct (Hlog _ Hin) as [sk Hsk].
      now rewrite fresh_channel in Hsk.
    + intros ch Hin. rewrite lookup_insert_is_Some.
      apply elem_of_app in Hin as [Hold|Hnew].
      * destruct (decide (fresh (dom (sinks st)) = ch)); [now left|].
        right. split; [assumption|now apply Hlog].
      * apply list_elem_of_singleton in Hnew. now left.
    + exact Herr.
  - destruct IH as (Hnodup & Hlog & Herr). unfold well_formed.
    cbn [ErrorLogger fst snd set_Errors Loggers Errors set_errors sinks
         errors].
    split; [exact Hnodup|]. split; [exact Hlog|].
    intros ch Hch. injection Hch as <-.
    rewrite lookup_insert_eq. eauto.
  - destruct IH as (Hnodup & Hlog & Herr).
    destruct (perform_keeps_channels s st st' Hsend) as (Hsinks & Herrors & _).
    split; [exact Hnodup|]. split.
    + intros ch Hin. apply Hsinks, Hlog, Hin.
    + intros ch Hch. apply Herrors, Herr, Hch.
  - destruct IH as (Hnodup & Hlog & Herr).
    destruct (consume_keeps_channels ch st st' Hrecv) as (Hsinks & Herrors).
    split; [exact Hnodup|]. split.
    + intros c Hin. apply Hsinks, Hlog, Hin.
    + intros c Hch. rewrite Herrors. apply Herr, Hch.
Qed.

Lemma setup_error_capacity (app : App) (st : Store W) :
  setup app st ->
  forall (ch : nat) (sk : ErrorSink),
    errors st !! ch = Some sk -> cap (equeue sk) = 1000%nat.
Proof.
  induction 1 as [h b|f log app st _ IH|log app st _ IH
                  |s app st st' _ IH Hsend|c app st st' _ IH Hrecv];
    intros ch sk Hlookup.
  - cbn in Hlookup. rewrite lookup_empty in Hlookup. discriminate.
  - exact (IH ch sk Hlookup).
  - cbn [ErrorLogger fst snd set_errors errors] in Hlookup.
    apply lookup_insert_Some in Hlookup as [[_ <-]|[_ Hold]];
      [reflexivity|exact (IH ch sk Hold)].
  - destruct (perform_keeps_channels s st st' Hsend) as (_ & _ & Hcap).
    destruct (Hcap ch sk Hlookup) as (sk0 & Hsk0 & ->).
    exact (IH ch sk0 Hsk0).
  - destruct (consume_keeps_channels c st st' Hrecv) as (_ & Herrors).
    rewrite Herrors in Hlookup. exact (IH ch sk Hlookup).
Qed.

(** X6. However a program sets up its App with [NewApp], [AddLogger] and
    [ErrorLogger], and whatever is sent and received in between: the
    loggers of the App are different channels, one per [AddLogger] call
    and in the order of the calls; each is a channel of capacity 1000 that
    [AddLogger] made; and the error channel, if [ErrorLogger] was called,
    is a channel of capacity 1000 that [ErrorLogger] made.  A call of
    [AddLogger] keeps the loggers there were and adds a channel that was
    not in use; it leaves the flags, the handler and the error channel of
    the App as they were, and the other sinks with their queues. *)
Theorem setup_keeps_the_channels_apart (app : App) (st : Store W) :
  setup app st ->
  NoDup (Loggers app) /\
  (forall ch : nat,
      ch ∈ Loggers app ->
      exists sk : Sink W,
        sinks st !! ch = Some sk /\ cap (queue sk) = 1000%nat) /\
  (forall ch : nat,
      Errors app = Some ch ->
      exists sk : ErrorSink,
        errors st !! ch = Some sk /\ cap (equeue sk) = 1000%nat) /\
  (forall (f : Formatter W) (log : nat),
      let added := AddLogger f log app st in
      let app' := fst (fst added) in
      let st' := snd (fst added) in
      let ch := snd added in
      Loggers app' = Loggers app ++ [ch] /\
      (ch ∉ Loggers app) /\
      sinks st !! ch = None /\
      sinks st' !! ch = Some {| queue := make 1000; format := f; dest := log |}
      /\
      (forall other : nat, other <> ch -> sinks st' !! other = sinks st !! other)
      /\
      errors st' = errors st /\ printed st' = printed st /\
      Errors app' = Errors app /\ Handler app' = Handler app /\
      StackIn500 app' = StackIn500 app /\ StackInLog app' = StackInLog app).
Proof.
  intros Hsetup.
  destruct (setup_well_formed app st Hsetup) as (Hnodup & Hlog & Herr).
  split; [exact Hnodup|].
  split.
  { intros ch Hin. destruct (Hlog ch Hin) as [sk Hsk]. exists sk.
    split; [exact Hsk|].
    apply (reachable_bounded st (setup_reachable app st Hsetup) ch sk Hsk). }
  split.
  { intros ch Hch. destruct (Herr ch Hch) as [sk Hsk]. exists sk.
    split; [exact Hsk|exact (setup_error_capacity app st Hsetup ch sk Hsk)]. }
  intros f log. cbv zeta.
  cbn [AddLogger fst snd set_Loggers set_sinks Loggers Errors Handler
       StackIn500 StackInLog sinks errors printed].
  split; [reflexivity|].
  split.
  { intros Hin. destruct (Hlog _ Hin) as [sk Hsk].
    now rewrite fresh_channel in Hsk. }
  split; [apply fresh_channel|].
  split; [apply lookup_insert_eq|].
  split; [intros other Hother; now apply lookup_insert_ne|].
  repeat split.
Qed.

End SetupFacts.

(** A combined log and a performance log added to a fresh App. *)
Lemma setup_keeps_the_channels_apart_witness :
  let first :=
    AddLogger CombinedFormat 1%nat (NewApp Demo.hello false)
      Demo.emptyStore in
  let second := AddLogger PerfFormat 2%nat (fst (fst first)) (snd (fst first)) in
  Loggers (fst (fst second)) = [snd first; snd second] /\
  snd first <> snd second.
Proof.
  intros first second.
  assert (Hsetup : setup (fst (fst second)) (snd (fst second))).
  { apply setup_AddLogger, setup_AddLogger.
    exact (setup_NewApp Demo.hello false). }
  destruct (setup_keeps_the_channels_apart _ _ Hsetup) as (Hnodup & _).
  split; [reflexivity|].
  change (Loggers (fst (fst second))) with [snd first; snd second] in Hnodup.
  apply NoDup_cons in Hnodup as [Hnotin _].
  intros Heq. apply Hnotin. rewrite Heq. apply list_elem_of_here.
Defined.

(** ** The consumer of a log sink *)

Section ConsumerFacts.

Context {W : Type}.

Lemma drain_queue (records : list (LogRecord W)) :
  forall (st : Store W) (ch : nat) (sk : Sink W),
    sinks st !! ch = Some sk ->
    buf (queue sk) = records ->
    exists st' : Store W,
      drain ch (length records) st = Some st' /\
      default [] (printed st' !! dest sk)
      = default [] (printed st !! dest sk) ++ map (format sk) records /\
      sinks st' !! ch = Some (set_queue sk (mkChan (cap (queue sk)) [])) /\
      (forall other : nat,
          other <> ch -> sinks st' !! other = sinks st !! other) /\
      (forall log : nat,
          log <> dest sk -> printed st' !! log = printed st !! log) /\
      errors st' = errors st.
Proof.
  induction records as [|x rest IH]; intros st ch sk Hch Hbuf.
  - exists st. cbn [drain length map]. rewrite app_nil_r.
    split; [reflexivity|]. split; [reflexivity|].
    split.
    { rewrite Hch. f_equal. destruct sk as [[c b] f d]. cbn in Hbuf.
      now subst b. }
    repeat split.
  - set (q := mkChan (cap (queue sk)) rest).
    set (st1 :=
      set_printed
        (set_sinks st (<[ch := set_queue sk q]> (sinks st)))
        (<[dest sk := default [] (printed st !! dest sk) ++ [format sk x]]>
           (printed st))).
    assert (Hstep : consume ch st = Some st1).
    { unfold consume, tryRecv. now rewrite Hch, Hbuf. }
    assert (Hch1 : sinks st1 !! ch = Some (set_queue sk q)).
    { subst st1. cbn [set_printed set_sinks sinks]. apply lookup_insert_eq. }
    destruct (IH st1 ch (set_queue sk q) Hch1 eq_refl)
      as (st' & Hdrain & Hprinted & Hqueue & Hsinks & Hlogs & Herrors).
    exists st'. cbn [drain length]. rewrite Hstep.
    split; [exact Hdrain|].
    split.
    { cbn [set_queue dest format] in Hprinted. rewrite Hprinted.
      subst st1. cbn [set_printed printed]. rewrite lookup_insert_eq.
      cbn [default map]. unfold id. now rewrite <- app_assoc. }
    split; [exact Hqueue|].
    split.
    { intros other Hother. rewrite (Hsinks other Hother).
      subst st1. cbn [set_printed set_sinks sinks].
      now apply lookup_insert_ne. }
    split.
    { intros log Hlog. cbn [set_queue dest] in Hlogs.
      rewrite (Hlogs log Hlog).
      subst st1. cbn [set_printed printed]. now apply lookup_insert_ne. }
    rewrite Herrors. reflexivity.
Qed.

Lemma drain_one_more (ch : nat) (n : nat) :
  forall st : Store W,
    drain ch (S n) st
    = match drain ch n st with
      | Some st' => consume ch st'
      | None => None
      end.
Proof.
  induction n as [|n IH]; intros st.
  - cbn [drain]. now destruct (consume ch st).
  - change (drain ch (S (S n)) st)
      with (match consume ch st with
            | Some st1 => drain ch (S n) st1
            | None => None
            end).
    cbn [drain]. destruct (consume ch st) as [st1|]; [|reflexivity].
    apply IH.
Qed.

(** X7. The consumer of a log sink prints what is in its queue, in queue
    order, skipping and repeating nothing.  As many turns of its loop as
    there are records in the queue all go through and hand the logger of
    the sink, after what it was handed before, the formatter's line of
    every record, oldest first; the queue is then empty, with the capacity
    it had; the next turn does not go through, the consumer waits; and
    the other sinks, the other loggers and the error channels are as they
    were.  With an empty queue already the first turn waits. *)
Theorem consumer_prints_the_queue_in_order (st : Store W) (ch : nat)
  (sk : Sink W) :
  sinks st !! ch = Some sk ->
  (buf (queue sk) = [] -> consume ch st = None) /\
  exists st' : Store W,
    drain ch (length (buf (queue sk))) st = Some st' /\
    default [] (printed st' !! dest sk)
    = default [] (printed st !! dest sk)
      ++ map (format sk) (buf (queue sk)) /\
    sinks st' !! ch = Some (set_queue sk (mkChan (cap (queue sk)) [])) /\
    consume ch st' = None /\
    drain ch (S (length (buf (queue sk)))) st = None /\
    (forall other : nat,
        other <> ch -> sinks st' !! other = sinks st !! other) /\
    (forall log : nat,
        log <> dest sk -> printed st' !! log = printed st !! log) /\
    errors st' = errors st.
Proof.
  intros Hch.
  split.
  { intros Hempty. unfold consume, tryRecv. now rewrite Hch, Hempty. }
  destruct (drain_queue (buf (queue sk)) st ch sk Hch eq_refl)
    as (st' & Hdrain & Hprinted & Hqueue & Hsinks & Hlogs & Herrors).
  exists st'.
  assert (Hwait : consume ch st' = None).
  { unfold consume, tryRecv. now rewrite Hqueue. }
  split; [exact Hdrain|]. split; [exact Hprinted|].
  split; [exact Hqueue|]. split; [exact Hwait|].
  split.
  { rewrite (drain_one_more ch (length (buf (queue sk))) st), Hdrain.
    exact Hwait. }
  split; [exact Hsinks|]. split; [exact Hlogs|exact Herrors].
Qed.

End ConsumerFacts.

(** Two requests queued for a sink that prints request lines: two turns
    of the consumer print both, a third waits. *)
Lemma consumer_prints_the_queue_in_order_witness :
  let added :=
    AddLogger Request 3%nat (NewApp Demo.hello false) Demo.emptyStore in
  let ch := snd added in
  let record :=
    rec (snd (ServeHTTP Demo.Stack Demo.where_ Demo.clock (fst (fst added))
                [] Demo.request)) in
  let st :=
    snd (deliver [SendRecord ch record; SendRecord ch record]
           (snd (fst added))) in
  exists st' : Store (list Demo.Call),
    drain ch 2 st = Some st' /\
    default [] (printed st' !! 3%nat)
    = ["GET /x HTTP/1.1"; "GET /x HTTP/1.1"] /\
    drain ch 3 st = None.
Proof.
  intros added ch record st.
  assert (Hch : sinks st !! ch
                = Some {| queue := mkChan 1000 [record; record];
                          format := Request; dest := 3%nat |}).
  { vm_compute. reflexivity. }
  destruct (consumer_prints_the_queue_in_order st ch _ Hch)
    as (_ & st' & Hdrain & Hprinted & _ & _ & Hwait & _).
  exists st'. split; [exact Hdrain|]. split; [exact Hprinted|exact Hwait].
Defined.

(** ** The fan-out to the log sinks *)

Section FanoutFacts.

Context {W : Type} `{!http.ResponseWriter W}.
Variable Stack : Z -> string.
Variable where_ : Z -> string.
Variable clock : nat -> time.Time.

Lemma deliver_app_done (l1 l2 : list (Send W)) :
  forall st st1 : Store W,
    deliver l1 st = ([], st1) -> deliver (l1 ++ l2) st = deliver l2 st1.
Proof.
  induction l1 as [|s l1 IH]; intros st st1 Hdone.
  - cbn in Hdone. injection Hdone as <-. reflexivity.
  - cbn [deliver List.app] in *.
    destruct (perform s st) as [st'|]; [|discriminate].
    now apply IH.
Qed.

(** Sends of one record to different channels that all have room: all go
    through; each channel gets the record at the end of its queue and
    nothing else changes. *)
Lemma deliver_to_all (record : LogRecord W) (l : list nat) :
  forall st : Store W,
    NoDup l ->
    (forall ch : nat, ch ∈ l -> has_room st ch) ->
    exists st' : Store W,
      deliver (map (fun ch => SendRecord ch record) l) st = ([], st') /\
      (forall (ch : nat) (sk : Sink W),
          ch ∈ l ->
          sinks st !! ch = Some sk ->
          sinks st' !! ch = Some (enqueued record sk)) /\
      (forall ch : nat, ch ∉ l -> sinks st' !! ch = sinks st !! ch) /\
      errors st' = errors st /\
      printed st' = printed st.
Proof.
  induction l as [|c l IH]; intros st Hnodup Hroom.
  - exists st. cbn [map deliver]. split; [reflexivity|].
    split; [intros ch sk Hin; now apply elem_of_nil in Hin|].
    repeat split.
  - apply NoDup_cons in Hnodup as [Hfresh Hnodup].
    destruct (Hroom c (list_elem_of_here c l)) as (sk & Hc & Hspace).
    set (st1 := set_sinks st (<[c := enqueued record sk]> (sinks st))).
    assert (Hsend : perform (SendRecord c record) st = Some st1).
    { exact (perform_SendRecord_room st c sk record Hc Hspace). }
    assert (Hother : forall ch : nat,
               ch <> c -> sinks st1 !! ch = sinks st !! ch).
    { intros ch Hne. subst st1. cbn [set_sinks sinks].
      apply lookup_insert_ne. congruence. }
    destruct (IH st1 Hnodup) as (st' & Hdone & Hin' & Hout' & Herr & Hpr).
    { intros ch Hin. destruct (Hroom ch (list_elem_of_further _ _ _ Hin))
        as (sk' & Hch & Hspace').
      exists sk'. split; [|exact Hspace'].
      rewrite Hother; [exact Hch|]. intros ->. contradiction. }
    exists st'. cbn [map deliver]. rewrite Hsend.
    split; [exact Hdone|].
    split.
    { intros ch sk' Hin Hch. apply elem_of_cons in Hin as [->|Hin].
      - rewrite (Hout' c Hfresh). subst st1. cbn [set_sinks sinks].
        rewrite lookup_insert_eq. congruence.
      - apply Hin'; [exact Hin|].
        rewrite Hother; [exact Hch|]. intros ->. contradiction. }
    split.
    { intros ch Hnotin. apply not_elem_of_cons in Hnotin as [Hne Hnotin].
      rewrite (Hout' ch Hnotin). now apply Hother. }
    split; [now rewrite Herr|now rewrite Hpr].
Qed.

Lemma is_stuck_blocks (st : Store W) (ch : nat) (record : LogRecord W) :
  is_stuck st ch -> perform (SendRecord ch record) st = None.
Proof.
  unfold is_stuck, perform. intros Hstuck.
  destruct (sinks st !! ch) as [sk|]; [|reflexivity].
  now rewrite trySend_full.
Qed.

(** X8. A request whose handler returns, served by an App whose loggers
    are different channels that all have room: every send goes through
    and none is left pending; each logger's queue gets the record of the
    request as its newest entry, once; and the queues of the other sinks,
    the error channels and what the loggers have printed are untouched. *)
Theorem fan_out_reaches_every_sink_once (app : App) (w : W)
  (r : http.Request) (st : Store W) :
  snd (http.exec (Handler app r) w) = None ->
  NoDup (Loggers app) ->
  (forall ch : nat, ch ∈ Loggers app -> has_room st ch) ->
  let g := snd (ServeHTTP Stack where_ clock app w r) in
  exists st' : Store W,
    deliver (sends g) st = ([], st') /\
    (forall (ch : nat) (sk : Sink W),
        ch ∈ Loggers app ->
        sinks st !! ch = Some sk ->
        sinks st' !! ch = Some (enqueued (rec g) sk)) /\
    (forall ch : nat, ch ∉ Loggers app -> sinks st' !! ch = sinks st !! ch) /\
    errors st' = errors st /\
    printed st' = printed st.
Proof.
  intros Hret Hnodup Hroom. cbv zeta.
  destruct (return_completes_and_fans_out Stack where_ clock app w r Hret)
    as (_ & Hsends).
  cbv zeta in Hsends. rewrite Hsends.
  exact (deliver_to_all _ (Loggers app) st Hnodup Hroom).
Qed.

(** X9. A full sink holds up the sinks registered after it, and only
    those.  When the loggers of the App are [before], then [ch], then
    [after], the channels of [before] are different and have room, and a
    send to [ch] does not proceed, then the request stays parked at the
    send to [ch]: the sinks of [before] have got the record, and those of
    [after] have not, whether they have room or not. *)
Theorem full_sink_holds_up_later_sinks (app : App) (w : W)
  (r : http.Request) (st : Store W) (before after : list nat) (ch : nat) :
  snd (http.exec (Handler app r) w) = None ->
  Loggers app = before ++ ch :: after ->
  NoDup before ->
  ch ∉ before ->
  (forall c : nat, c ∈ before -> has_room st c) ->
  is_stuck st ch ->
  let g := snd (ServeHTTP Stack where_ clock app w r) in
  exists st' : Store W,
    deliver (sends g) st
    = (map (fun c => SendRecord c (rec g)) (ch :: after), st') /\
    (forall (c : nat) (sk : Sink W),
        c ∈ before ->
        sinks st !! c = Some sk ->
        sinks st' !! c = Some (enqueued (rec g) sk)) /\
    (forall c : nat, c ∉ before -> sinks st' !! c = sinks st !! c) /\
    errors st' = errors st /\
    printed st' = printed st.
Proof.
  intros Hret Hloggers Hnodup Hnotin Hroom Hstuck. cbv zeta.
  destruct (return_completes_and_fans_out Stack where_ clock app w r Hret)
    as (_ & Hsends).
  cbv zeta in Hsends. rewrite Hsends, Hloggers, map_app.
  set (record := rec (snd (ServeHTTP Stack where_ clock app w r))).
  destruct (deliver_to_all record before st Hnodup Hroom)
    as (st' & Hdone & Hin & Hout & Herr & Hpr).
  exists st'. rewrite (deliver_app_done _ _ st st' Hdone).
  split.
  { cbn [map deliver]. rewrite is_stuck_blocks; [reflexivity|].
    unfold is_stuck. rewrite (Hout ch Hnotin). exact Hstuck. }
  split; [exact Hin|]. split; [exact Hout|]. split; [exact Herr|exact Hpr].
Qed.

End FanoutFacts.

(** ** Set-up, request and consumer together *)

Section EndToEndFacts.

Context {W : Type} `{!http.ResponseWriter W}.
Variable Stack : Z -> string.
Variable where_ : Z -> string.
Variable clock : nat -> time.Time.

(** X5. After [ErrorLogger(log)], whatever the App and the store were
    before: the error channel of the App is a channel that was not in
    use, the loggers and the log sinks are as they were, and the report of
    a request whose handler panics goes through at once and is the one
    entry of the new channel's queue; no other error channel, in
    particular none that an earlier [ErrorLogger] call made, gets it. *)
Theorem ErrorLogger_channel_gets_the_report (log : nat) (app : App)
  (st : Store W) (w : W) (r : http.Request) (e : fmt.any) :
  snd (http.exec (Handler app r) w) = Some e ->
  let made := ErrorLogger log app st in
  let app' := fst (fst made) in
  let st' := snd (fst made) in
  let ch := snd made in
  let g := snd (ServeHTTP Stack where_ clock app' w r) in
  let report :=
    spec_report (spec_timestamp (clock 1)) e (where_ 2) (Stack 2)
      (StackInLog app) in
  Errors app' = Some ch /\
  errors st !! ch = None /\
  Loggers app' = Loggers app /\
  sinks st' = sinks st /\
  exists st'' : Store W,
    deliver (sends g) st' = ([], st'') /\
    errors st'' !! ch
    = Some {| equeue := mkChan 1000 [report]; edest := log |} /\
    (forall other : nat,
        other <> ch -> errors st'' !! other = errors st !! other) /\
    sinks st'' = sinks st /\
    printed st'' = printed st.
Proof.
  intros Hpanic. cbv zeta.
  set (ch := fresh (dom (errors st))).
  set (sk := {| equeue := make 1000; edest := log |}).
  set (app' := set_Errors app (Some ch)).
  set (st' := set_errors st (<[ch := sk]> (errors st))).
  change (ErrorLogger log app st) with (app', st', ch). cbn [fst snd].
  split; [reflexivity|]. split; [apply fresh_channel|].
  split; [reflexivity|]. split; [reflexivity|].
  destruct (exec_newRecord app' w r (clock 0)) as (rec' & Hexec & _).
  change (Handler app' r) with (Handler app r) in Hexec.
  rewrite Hpanic in Hexec.
  rewrite (ServeHTTP_panics Stack where_ clock app' w r rec' e Hexec).
  cbn [snd sends]. unfold guardSends, guardReport.
  change (Errors app') with (Some ch).
  change (StackInLog app') with (StackInLog app).
  rewrite Format_ApacheTime.
  set (report := spec_report _ _ _ _ _).
  assert (Hch : errors st' !! ch = Some sk).
  { subst st'. cbn [set_errors errors]. apply lookup_insert_eq. }
  assert (Hroom : (length (buf (equeue sk)) < cap (equeue sk))%nat).
  { cbn. lia. }
  eexists. cbn [deliver].
  rewrite (perform_SendError_room st' ch sk report Hch Hroom).
  split; [reflexivity|].
  cbn [set_errors errors sinks printed].
  split; [now rewrite lookup_insert_eq|].
  split; [|split; reflexivity].
  intros other Hother. subst st'. cbn [set_errors errors].
  rewrite !lookup_insert_ne by congruence. reflexivity.
Qed.

(** X15. One [AddLogger(f, log)] on an App without loggers, one request
    whose handler returns, one turn of the consumer: the send of the
    record goes through at once, the consumer takes the record out and
    hands [log] the line [f] makes of it, after what [log] was handed
    before and once; the consumer then waits, and no other logger is
    handed anything. *)
Theorem one_logger_one_line_per_request (f : Formatter W) (log : nat)
  (app : App) (st : Store W) (w : W) (r : http.Request) :
  Loggers app = [] ->
  snd (http.exec (Handler app r) w) = None ->
  let added := AddLogger f log app st in
  let app' := fst (fst added) in
  let ch := snd added in
  let g := snd (ServeHTTP Stack where_ clock app' w r) in
  exists st1 st2 : Store W,
    deliver (sends g) (snd (fst added)) = ([], st1) /\
    consume ch st1 = Some st2 /\
    default [] (printed st2 !! log)
    = default [] (printed st !! log) ++ [f (rec g)] /\
    (forall other : nat,
        other <> log -> printed st2 !! other = printed st !! other) /\
    consume ch st2 = None.
Proof.
  intros Hnone Hret. cbv zeta.
  set (ch := fresh (dom (sinks st))).
  set (sk := {| queue := make 1000; format := f; dest := log |}).
  set (app' := set_Loggers app (Loggers app ++ [ch])).
  set (st' := set_sinks st (<[ch := sk]> (sinks st))).
  change (AddLogger f log app st) with (app', st', ch). cbn [fst snd].
  assert (Hret' : snd (http.exec (Handler app' r) w) = None) by exact Hret.
  destruct (return_completes_and_fans_out Stack where_ clock app' w r Hret')
    as (_ & Hsends).
  cbv zeta in Hsends. rewrite Hsends.
  set (record := rec (snd (ServeHTTP Stack where_ clock app' w r))).
  change (Loggers app') with (Loggers app ++ [ch]). rewrite Hnone.
  cbn [List.app map deliver].
  assert (Hch : sinks st' !! ch = Some sk).
  { subst st'. cbn [set_sinks sinks]. apply lookup_insert_eq. }
  assert (Hroom : (length (buf (queue sk)) < cap (queue sk))%nat).
  { cbn. lia. }
  rewrite (perform_SendRecord_room st' ch sk record Hch Hroom).
  eexists _, _. split; [reflexivity|].
  unfold consume at 1. cbn [set_sinks sinks printed].
  rewrite lookup_insert_eq. cbn [tryRecv set_queue queue buf cap sk make
                                  List.app dest format].
  split; [reflexivity|].
  cbn [set_printed printed sinks set_sinks].
  split; [now rewrite lookup_insert_eq|].
  split; [intros other Hother; now rewrite lookup_insert_ne by congruence|].
  unfold consume. cbn [set_printed set_sinks sinks].
  rewrite lookup_insert_eq. reflexivity.
Qed.

End EndToEndFacts.

(** Two sinks added to a fresh App, then one request: both queues hold
    its record. *)
Lemma fan_out_reaches_every_sink_once_witness :
  let first :=
    AddLogger Request 1%nat (NewApp Demo.hello false) Demo.emptyStore in
  let second := AddLogger Request 2%nat (fst (fst first)) (snd (fst first)) in
  let g :=
    snd (ServeHTTP Demo.Stack Demo.where_ Demo.clock (fst (fst second)) []
           Demo.request) in
  exists st' : Store (list Demo.Call),
    deliver (sends g) (snd (fst second)) = ([], st') /\
    (buf ∘ queue) <$> (sinks st' !! snd first) = Some [rec g] /\
    (buf ∘ queue) <$> (sinks st' !! snd second) = Some [rec g].
Proof.
  intros first second g.
  assert (Hret :
    snd (http.exec (Handler (fst (fst second)) Demo.request)
           ([] : list Demo.Call)) = None) by reflexivity.
  assert (Hloggers : Loggers (fst (fst second)) = [snd first; snd second])
    by reflexivity.
  assert (Hdiff : snd first <> snd second).
  { intros Heq. vm_compute in Heq. discriminate Heq. }
  assert (Hnodup : NoDup (Loggers (fst (fst second)))).
  { rewrite Hloggers. apply NoDup_cons. split; [|apply NoDup_singleton].
    intros Hin. apply list_elem_of_singleton in Hin. contradiction. }
  assert (H1 : sinks (snd (fst second)) !! snd first
               = Some {| queue := make 1000; format := Request;
                         dest := 1%nat |}) by (vm_compute; reflexivity).
  assert (H2 : sinks (snd (fst second)) !! snd second
               = Some {| queue := make 1000; format := Request;
                         dest := 2%nat |}) by (vm_compute; reflexivity).
  assert (Hroom : forall ch : nat,
             ch ∈ Loggers (fst (fst second)) ->
             has_room (snd (fst second)) ch).
  { intros ch Hin. rewrite Hloggers in Hin.
    apply elem_of_cons in Hin as [->|Hin].
    - eexists. split; [exact H1|]. cbn. lia.
    - apply list_elem_of_singleton in Hin as ->.
      eexists. split; [exact H2|]. cbn. lia. }
  destruct (fan_out_reaches_every_sink_once Demo.Stack Demo.where_ Demo.clock
              (fst (fst second)) [] Demo.request (snd (fst second))
              Hret Hnodup Hroom)
    as (st' & Hdone & Hin & _).
  exists st'. split; [exact Hdone|].
  split.
  - rewrite (Hin (snd first) _ ltac:(rewrite Hloggers; apply list_elem_of_here) H1).
    reflexivity.
  - rewrite (Hin (snd second) _
               ltac:(rewrite Hloggers; apply list_elem_of_further,
                                          list_elem_of_here) H2).
    reflexivity.
Defined.

(** Three sinks, the second with a full queue: a request leaves its record
    with the first and stays parked at the second; the third gets
    nothing. *)
Lemma full_sink_holds_up_later_sinks_witness :
  let first :=
    AddLogger Request 1%nat (NewApp Demo.hello false) Demo.emptyStore in
  let second := AddLogger Request 2%nat (fst (fst first)) (snd (fst first)) in
  let third := AddLogger Request 3%nat (fst (fst second)) (snd (fst second)) in
  let app := fst (fst third) in
  let g :=
    snd (ServeHTTP Demo.Stack Demo.where_ Demo.clock app [] Demo.request) in
  let st :=
    snd (deliver (repeat (SendRecord (snd second) (rec g)) 1000)
           (snd (fst third))) in
  exists st' : Store (list Demo.Call),
    deliver (sends g) st
    = ([SendRecord (snd second) (rec g); SendRecord (snd third) (rec g)], st')
    /\
    (buf ∘ queue) <$> (sinks st' !! snd first) = Some [rec g] /\
    (buf ∘ queue) <$> (sinks st' !! snd third) = Some [].
Proof.
  intros first second third app g st.
  assert (Hret :
    snd (http.exec (Handler app Demo.request) ([] : list Demo.Call)) = None)
    by reflexivity.
  assert (Hloggers : Loggers app = [snd first] ++ snd second :: [snd third])
    by reflexivity.
  assert (Hnotin : snd second ∉ [snd first]).
  { intros Hin. apply list_elem_of_singleton in Hin.
    vm_compute in Hin. discriminate Hin. }
  assert (H1 : sinks st !! snd first
               = Some {| queue := make 1000; format := Request;
                         dest := 1%nat |}) by (vm_compute; reflexivity).
  assert (H3 : sinks st !! snd third
               = Some {| queue := make 1000; format := Request;
                         dest := 3%nat |}) by (vm_compute; reflexivity).
  assert (Hroom : forall c : nat, c ∈ [snd first] -> has_room st c).
  { intros c Hin. apply list_elem_of_singleton in Hin as ->.
    eexists. split; [exact H1|]. cbn. lia. }
  assert (Hstuck : is_stuck st (snd second)).
  { vm_compute. apply le_n. }
  destruct (full_sink_holds_up_later_sinks Demo.Stack Demo.where_ Demo.clock
              app [] Demo.request st [snd first] [snd third] (snd second)
              Hret Hloggers (NoDup_singleton _) Hnotin Hroom Hstuck)
    as (st' & Hparked & Hin & Hout & _).
  exists st'. split; [exact Hparked|].
  split.
  - rewrite (Hin (snd first) _ ltac:(apply list_elem_of_here) H1).
    reflexivity.
  - rewrite Hout, H3; [reflexivity|].
    intros Hin3. apply list_elem_of_singleton in Hin3.
    vm_compute in Hin3. discriminate Hin3.
Defined.

(** [ErrorLogger] called twice, then a panic: the report is in the queue
    of the second channel and the first is left empty. *)
Lemma ErrorLogger_channel_gets_the_report_witness :
  let first := ErrorLogger 7%nat (NewApp Demo.faulty false) Demo.emptyStore in
  let second := ErrorLogger 8%nat (fst (fst first)) (snd (fst first)) in
  let g :=
    snd (ServeHTTP Demo.Stack Demo.where_ Demo.clock (fst (fst second)) []
           Demo.request) in
  exists st'' : Store (list Demo.Call),
    deliver (sends g) (snd (fst second)) = ([], st'') /\
    (buf ∘ equeue) <$> (errors st'' !! snd second)
    = Some ["[10/Oct/2000:13:55:36 -0700] [panic] index out of range [at handler.go:7]"]
    /\
    (buf ∘ equeue) <$> (errors st'' !! snd first) = Some [].
Proof.
  intros first second g.
  assert (Hpanic :
    snd (http.exec (Handler (fst (fst first)) Demo.request)
           ([] : list Demo.Call))
    = Some (fmt.AnyError "index out of range")) by reflexivity.
  destruct (ErrorLogger_channel_gets_the_report Demo.Stack Demo.where_
              Demo.clock 8%nat (fst (fst first)) (snd (fst first)) []
              Demo.request _ Hpanic)
    as (_ & _ & _ & _ & st'' & Hdone & Hnew & Hother & _).
  exists st''. split; [exact Hdone|]. subst second.
  split.
  - rewrite Hnew. vm_compute. reflexivity.
  - rewrite Hother; [vm_compute; reflexivity|].
    intros Heq. vm_compute in Heq. discriminate Heq.
Defined.

(** A sink that prints request lines, one request: one line. *)
Lemma one_logger_one_line_per_request_witness :
  let added :=
    AddLogger Request 3%nat (NewApp Demo.hello false) Demo.emptyStore in
  let g :=
    snd (ServeHTTP Demo.Stack Demo.where_ Demo.clock (fst (fst added)) []
           Demo.request) in
  exists st1 st2 : Store (list Demo.Call),
    deliver (sends g) (snd (fst added)) = ([], st1) /\
    consume (snd added) st1 = Some st2 /\
    default [] (printed st2 !! 3%nat) = ["GET /x HTTP/1.1"].
Proof.
  intros added g.
  assert (Hret :
    snd (http.exec (Handler (NewApp Demo.hello false) Demo.request)
           ([] : list Demo.Call)) = None) by reflexivity.
  destruct (one_logger_one_line_per_request Demo.Stack Demo.where_ Demo.clock
              Request 3%nat (NewApp Demo.hello false) Demo.emptyStore []
              Demo.request eq_refl Hret)
    as (st1 & st2 & Hdone & Hturn & Hline & _).
  exists st1, st2. split; [exact Hdone|]. split; [exact Hturn|exact Hline].
Defined.

(** ** More on the formatters *)

Section LineFacts.

Context {W : Type}.

(** X12. The combined line carries the referer and the user agent as they
    are: a double quote inside one of them is written as it is.  So the
    line does not tell where one ends and the other begins: moving the
    text after a quote-space-quote from the referer to the user agent
    gives a different record with the same line. *)
Theorem combined_line_writes_quotes_as_they_are (rec : LogRecord W)
  (a b c : string) :
  let between := strings.dquote +:+ " " +:+ strings.dquote in
  CombinedFormat (set_UserAgent (set_Referer rec (a +:+ between +:+ b)) c)
  = spec_line_start rec (time.Format (RequestStarted rec) ApacheTime)
    +:+ " " +:+ strings.dquote +:+ a +:+ strings.dquote +:+ " "
    +:+ strings.dquote +:+ b +:+ strings.dquote +:+ " "
    +:+ strings.dquote +:+ c +:+ strings.dquote /\
  CombinedFormat (set_UserAgent (set_Referer rec (a +:+ between +:+ b)) c)
  = CombinedFormat (set_UserAgent (set_Referer rec a) (b +:+ between +:+ c)).
Proof.
  cbv zeta.
  assert (Hline : forall x y : string,
    CombinedFormat (set_UserAgent (set_Referer rec x) y)
    = spec_line_start rec (time.Format (RequestStarted rec) ApacheTime)
      +:+ " " +:+ strings.dquote +:+ x +:+ strings.dquote
      +:+ " " +:+ strings.dquote +:+ y +:+ strings.dquote).
  { intros x y. rewrite CombinedFormat_line. reflexivity. }
  rewrite !Hline.
  generalize (spec_line_start rec (time.Format (RequestStarted rec) ApacheTime)).
  intros start. unfold strings.dquote.
  split; append_norm; reflexivity.
Qed.

(** X11. The milliseconds of the performance line at their edges.  When
    completion and start are less than a millisecond apart, either way,
    the field is [0ms].  When they are further apart than a
    [time.Duration] holds, the field is the largest or the smallest
    duration in milliseconds; so a record that was started after 1970 and
    never completed, whose completion time is the zero time, reads
    [-9223372036854ms]. *)
Theorem PerfFormat_milliseconds_at_the_edges (rec : LogRecord W) :
  let d :=
    time.unixNano (RequestCompleted rec) - time.unixNano (RequestStarted rec)
  in
  let start :=
    spec_line_start rec (time.Format (RequestStarted rec) ApacheTime) in
  (-1000000 < d < 1000000 -> PerfFormat rec = start +:+ " 0ms") /\
  (time.maxDuration < d ->
   PerfFormat rec = start +:+ " 9223372036854ms") /\
  (d < time.minDuration ->
   PerfFormat rec = start +:+ " -9223372036854ms") /\
  (RequestCompleted rec = time.zero ->
   0 <= time.unixNano (RequestStarted rec) ->
   PerfFormat rec = start +:+ " -9223372036854ms").
Proof.
  cbv zeta. rewrite PerfFormat_line.
  generalize (spec_line_start rec (time.Format (RequestStarted rec) ApacheTime)).
  intros start.
  assert (Hlow : forall d : Z,
    d < time.minDuration ->
    (if d <? time.minDuration then time.minDuration
     else if time.maxDuration <? d then time.maxDuration else d)
    = time.minDuration).
  { intros d Hd. destruct (Z.ltb_spec d time.minDuration); [reflexivity|lia]. }
  split.
  { intros Hsmall. rewrite Sub_in_range.
    - replace (Z.quot _ 1000000) with 0; [reflexivity|].
      symmetry. apply Z.quot_small_iff; lia.
    - unfold time.minDuration, time.maxDuration. lia. }
  split.
  { intros Hbig. unfold time.Sub.
    set (d := time.unixNano (RequestCompleted rec)
              - time.unixNano (RequestStarted rec)) in *.
    destruct (Z.ltb_spec d time.minDuration);
      [unfold time.minDuration, time.maxDuration in *; lia|].
    destruct (Z.ltb_spec time.maxDuration d); [reflexivity|lia]. }
  split.
  { intros Hlittle. unfold time.Sub. rewrite (Hlow _ Hlittle). reflexivity. }
  intros Hzero Hstarted. unfold time.Sub. rewrite Hlow; [reflexivity|].
  rewrite Hzero. unfold time.minDuration. cbn [time.unixNano time.zero]. lia.
Qed.

End LineFacts.

(** A record started in 2000 and not completed. *)
Lemma PerfFormat_milliseconds_at_the_edges_witness :
  PerfFormat (Demo.sample (Demo.clock 0) time.zero)
  = "10.0.0.1 - - [10/Oct/2000:13:55:36 -0700] " +:+ strings.dquote
    +:+ "GET /x HTTP/1.1" +:+ strings.dquote
    +:+ " 200 512 -9223372036854ms".
Proof.
  destruct (PerfFormat_milliseconds_at_the_edges
              (Demo.sample (Demo.clock 0) time.zero))
    as (_ & _ & _ & Hzero).
  rewrite Hzero.
  - vm_compute. reflexivity.
  - reflexivity.
  - vm_compute. discriminate.
Defined.

(** ** The width of the timestamp *)

Lemma allFrom_spec (fuel : nat) (P : Z -> bool) :
  forall x0 : Z,
    allFrom fuel x0 P = true ->
    forall x : Z, x0 <= x < x0 + Z.of_nat fuel -> P x = true.
Proof.
  induction fuel as [|k IH]; intros x0 Hall x Hx; [lia|].
  cbn [allFrom] in Hall. apply andb_true_iff in Hall as [Hhere Hrest].
  destruct (Z.eq_dec x x0) as [->|Hne]; [exact Hhere|].
  apply (IH (x0 + 1) Hrest). lia.
Qed.

Lemma below_spec (n : Z) (P : Z -> bool) :
  below n P = true -> forall x : Z, 0 <= x < n -> P x = true.
Proof.
  unfold below. intros Hall x Hx. apply (allFrom_spec _ P 0 Hall). lia.
Qed.

Lemma length_append (s t : string) :
  String.length (s +:+ t) = (String.length s + String.length t)%nat.
Proof.
  induction s as [|c s IH]; [reflexivity|].
  rewrite append_cons. cbn [String.length]. now rewrite IH.
Qed.

Lemma appendInt_two_digits (x : Z) :
  0 <= x < 100 -> String.length (time.appendInt x 2) = 2%nat.
Proof.
  intros Hx. apply Nat.eqb_eq.
  apply (below_spec 100
           (fun x => Nat.eqb (String.length (time.appendInt x 2)) 2));
    [vm_compute; reflexivity|exact Hx].
Qed.

Lemma appendInt_four_digits (x : Z) :
  0 <= x < 10000 -> String.length (time.appendInt x 4) = 4%nat.
Proof.
  intros Hx. apply Nat.eqb_eq.
  apply (below_spec 10000
           (fun x => Nat.eqb (String.length (time.appendInt x 4)) 4));
    [vm_compute; reflexivity|exact Hx].
Qed.

Lemma monthAbbrev_three_letters (m : Z) :
  1 <= m <= 12 -> String.length (time.monthAbbrev m) = 3%nat.
Proof.
  intros Hm. apply Nat.eqb_eq.
  replace m with (m - 1 + 1) by lia.
  apply (below_spec 12
           (fun k => Nat.eqb (String.length (time.monthAbbrev (k + 1))) 3));
    [vm_compute; reflexivity|lia].
Qed.

Lemma civil_monthDay (days : Z) :
  snd (fst (time.civil days)) = fst (monthDay ((days + 719468) mod 146097)) /\
  snd (time.civil days) = snd (monthDay ((days + 719468) mod 146097)).
Proof.
  unfold time.civil, monthDay.
  rewrite (Z.mod_eq (days + 719468) 146097) by lia.
  rewrite (Z.mul_comm 146097). cbv zeta. cbn [fst snd]. split; reflexivity.
Qed.

Lemma monthDay_range (doe : Z) :
  0 <= doe < 146097 ->
  1 <= fst (monthDay doe) <= 12 /\ 1 <= snd (monthDay doe) <= 31.
Proof.
  intros Hdoe.
  assert (Hok : monthDay_ok doe = true).
  { apply (below_spec 146097 monthDay_ok); [vm_compute; reflexivity|exact Hdoe]. }
  unfold monthDay_ok in Hok. cbv zeta in Hok.
  repeat (apply andb_true_iff in Hok as [Hok ?]). lia.
Qed.

Lemma date_range (t : time.Time) :
  1 <= time.Month t <= 12 /\ 1 <= time.Day t <= 31 /\
  0 <= time.Hour t < 24 /\ 0 <= time.Minute t < 60 /\
  0 <= time.Second t < 60.
Proof.
  unfold time.Month, time.Day, time.Hour, time.Minute, time.Second.
  destruct (civil_monthDay (time.localSeconds t / 86400)) as [-> ->].
  assert (Hdoe : 0 <= (time.localSeconds t / 86400 + 719468) mod 146097
                 < 146097) by (apply Z.mod_pos_bound; lia).
  destruct (monthDay_range _ Hdoe) as [Hm Hd].
  split; [exact Hm|]. split; [exact Hd|].
  pose proof (Z.mod_pos_bound (time.localSeconds t) 86400 ltac:(lia)).
  pose proof (Z.mod_pos_bound (time.localSeconds t) 3600 ltac:(lia)).
  pose proof (Z.mod_pos_bound (time.localSeconds t) 60 ltac:(lia)).
  repeat split; try lia.
  - apply Z.div_pos; lia.
  - apply Z.div_lt_upper_bound; lia.
  - apply Z.div_pos; lia.
  - apply Z.div_lt_upper_bound; lia.
Qed.

Lemma numTZ_five_bytes (t : time.Time) :
  -360000 < time.zoneOffset t < 360000 ->
  String.length (time.numTZ t) = 5%nat.
Proof.
  intros Hzone. unfold time.numTZ.
  set (zone := Z.quot (time.zoneOffset t) 60).
  assert (Hzone' : -6000 < zone < 6000).
  { subst zone. split.
    - apply Z.lt_le_trans with (Z.quot (-359999) 60); [reflexivity|].
      apply Z.quot_le_mono; lia.
    - apply Z.le_lt_trans with (Z.quot 359999 60); [|reflexivity].
      apply Z.quot_le_mono; lia. }
  assert (Habs : 0 <= Z.abs zone < 6000) by lia.
  assert (Hminutes : 0 <= Z.rem (Z.abs zone) 60 < 100).
  { rewrite Z.rem_mod_nonneg by lia.
    pose proof (Z.mod_pos_bound (Z.abs zone) 60 ltac:(lia)). lia. }
  assert (Hhours : 0 <= Z.quot (Z.abs zone) 60 < 100).
  { rewrite Z.quot_div_nonneg by lia.
    split; [apply Z.div_pos; lia|apply Z.div_lt_upper_bound; lia]. }
  rewrite !length_append.
  rewrite (appendInt_two_digits _ Hminutes), (appendInt_two_digits _ Hhours).
  now destruct (zone <? 0).
Qed.

(** X13. The timestamp of the log lines has a fixed width.  For every
    time whose year is between 0 and 9999 and whose zone is less than a
    hundred hours off UTC, the time laid out with [ApacheTime] is 26 bytes
    long: two digits for the day, three letters for the month, four
    digits for the year, two each for hour, minute and second, and a sign
    and four digits for the zone. *)
Theorem timestamp_is_26_bytes_wide (t : time.Time) :
  0 <= time.Year t <= 9999 ->
  -360000 < time.zoneOffset t < 360000 ->
  String.length (time.Format t ApacheTime) = 26%nat /\
  String.length (time.appendInt (time.Day t) 2) = 2%nat /\
  String.length (time.monthAbbrev (time.Month t)) = 3%nat /\
  String.length (time.appendInt (time.Year t) 4) = 4%nat /\
  String.length (time.numTZ t) = 5%nat.
Proof.
  intros Hyear Hzone.
  destruct (date_range t) as (Hmonth & Hday & Hhour & Hminute & Hsecond).
  assert (Hd : String.length (time.appendInt (time.Day t) 2) = 2%nat)
    by (apply appendInt_two_digits; lia).
  assert (Hm : String.length (time.monthAbbrev (time.Month t)) = 3%nat)
    by (apply monthAbbrev_three_letters; lia).
  assert (Hy : String.length (time.appendInt (time.Year t) 4) = 4%nat)
    by (apply appendInt_four_digits; lia).
  assert (Hz : String.length (time.numTZ t) = 5%nat)
    by (apply numTZ_five_bytes; exact Hzone).
  split; [|repeat split; assumption].
  rewrite Format_ApacheTime. unfold spec_timestamp.
  rewrite !length_append, Hd, Hm, Hy, Hz.
  rewrite !appendInt_two_digits by lia. reflexivity.
Qed.

(** The clock of the examples. *)
Lemma timestamp_is_26_bytes_wide_witness :
  String.length (time.Format (Demo.clock 0) ApacheTime) = 26%nat.
Proof.
  destruct (timestamp_is_26_bytes_wide (Demo.clock 0)) as (Hwidth & _).
  - vm_compute. split; discriminate.
  - vm_compute. split; reflexivity.
  - exact Hwidth.
Defined.

(** ** The order of the lines *)

Section OrderFacts.

Context {W : Type} `{!http.ResponseWriter W}.
Variable Stack : Z -> string.
Variable where_ : Z -> string.

(** X14. Requests are printed in the order they were served.  Two
    requests whose handlers return, served one after the other by an App
    with one logger whose queue has room for two more records: both sends
    go through, and when the consumer has taken out all that is queued,
    the logger has been handed the lines of the records that were waiting
    before, then the line of the first request, then the line of the
    second, each once. *)
Theorem requests_are_printed_in_the_order_served
  (clock1 clock2 : nat -> time.Time) (app : App) (w1 w2 : W)
  (r1 r2 : http.Request) (st : Store W) (ch : nat) (sk : Sink W) :
  Loggers app = [ch] ->
  snd (http.exec (Handler app r1) w1) = None ->
  snd (http.exec (Handler app r2) w2) = None ->
  sinks st !! ch = Some sk ->
  (length (buf (queue sk)) + 2 <= cap (queue sk))%nat ->
  let g1 := snd (ServeHTTP Stack where_ clock1 app w1 r1) in
  let g2 := snd (ServeHTTP Stack where_ clock2 app w2 r2) in
  exists st1 st2 st3 : Store W,
    deliver (sends g1) st = ([], st1) /\
    deliver (sends g2) st1 = ([], st2) /\
    drain ch (length (buf (queue sk)) + 2) st2 = Some st3 /\
    default [] (printed st3 !! dest sk)
    = default [] (printed st !! dest sk)
      ++ map (format sk) (buf (queue sk))
      ++ [format sk (rec g1); format sk (rec g2)] /\
    consume ch st3 = None.
Proof.
  intros Hloggers Hret1 Hret2 Hch Hroom. cbv zeta.
  destruct (return_completes_and_fans_out Stack where_ clock1 app w1 r1 Hret1)
    as (_ & Hsends1).
  destruct (return_completes_and_fans_out Stack where_ clock2 app w2 r2 Hret2)
    as (_ & Hsends2).
  cbv zeta in Hsends1, Hsends2. rewrite Hsends1, Hsends2, Hloggers.
  set (rec1 := rec (snd (ServeHTTP Stack where_ clock1 app w1 r1))).
  set (rec2 := rec (snd (ServeHTTP Stack where_ clock2 app w2 r2))).
  cbn [map].
  assert (Hroom1 : (length (buf (queue sk)) < cap (queue sk))%nat) by lia.
  set (sk1 := set_queue sk
                (mkChan (cap (queue sk)) (buf (queue sk) ++ [rec1]))).
  set (st1 := set_sinks st (<[ch := sk1]> (sinks st))).
  assert (Hd1 : deliver [SendRecord ch rec1] st = ([], st1)).
  { cbn [deliver].
    now rewrite (perform_SendRecord_room st ch sk rec1 Hch Hroom1). }
  assert (Hch1 : sinks st1 !! ch = Some sk1).
  { subst st1. cbn [set_sinks sinks]. apply lookup_insert_eq. }
  assert (Hroom2 : (length (buf (queue sk1)) < cap (queue sk1))%nat).
  { subst sk1. cbn [set_queue queue buf cap]. rewrite length_app.
    cbn [length]. lia. }
  set (sk2 := set_queue sk1
                (mkChan (cap (queue sk1)) (buf (queue sk1) ++ [rec2]))).
  set (st2 := set_sinks st1 (<[ch := sk2]> (sinks st1))).
  assert (Hd2 : deliver [SendRecord ch rec2] st1 = ([], st2)).
  { cbn [deliver].
    now rewrite (perform_SendRecord_room st1 ch sk1 rec2 Hch1 Hroom2). }
  assert (Hch2 : sinks st2 !! ch = Some sk2).
  { subst st2. cbn [set_sinks sinks]. apply lookup_insert_eq. }
  destruct (drain_queue (buf (queue sk2)) st2 ch sk2 Hch2 eq_refl)
    as (st3 & Hdrain & Hprinted & Hqueue & _).
  assert (Hlen : length (buf (queue sk2))
                 = (length (buf (queue sk)) + 2)%nat).
  { subst sk2 sk1. cbn [set_queue queue buf]. rewrite !length_app.
    cbn [length]. lia. }
  exists st1, st2, st3.
  split; [exact Hd1|]. split; [exact Hd2|].
  split; [now rewrite <- Hlen|].
  split.
  - subst sk2 sk1 st2 st1.
    cbn [set_queue queue buf dest format set_sinks printed] in Hprinted.
    rewrite Hprinted, !map_app, <- !app_assoc. reflexivity.
  - unfold consume, tryRecv. now rewrite Hqueue.
Qed.

End OrderFacts.

(** Two requests, the second a hundred seconds after the first and on a
    connection that has had a header already, for a sink that prints
    request lines. *)
Lemma requests_are_printed_in_the_order_served_witness :
  let added :=
    AddLogger Request 3%nat (NewApp Demo.hello false) Demo.emptyStore in
  let app := fst (fst added) in
  let later (k : nat) :=
    time.mkTime (971211436 * 1000000000 + Z.of_nat k * 2500000) (-25200) in
  let g1 :=
    snd (ServeHTTP Demo.Stack Demo.where_ Demo.clock app [] Demo.request) in
  let g2 :=
    snd (ServeHTTP Demo.Stack Demo.where_ later app
           [Demo.CallWriteHeader 100] Demo.request) in
  exists st1 st2 st3 : Store (list Demo.Call),
    deliver (sends g1) (snd (fst added)) = ([], st1) /\
    deliver (sends g2) st1 = ([], st2) /\
    drain (snd added) 2 st2 = Some st3 /\
    default [] (printed st3 !! 3%nat)
    = [Request (rec g1); Request (rec g2)].
Proof.
  intros added app later g1 g2.
  assert (Hret1 :
    snd (http.exec (Handler app Demo.request) ([] : list Demo.Call)) = None)
    by reflexivity.
  assert (Hret2 :
    snd (http.exec (Handler app Demo.request) [Demo.CallWriteHeader 100])
    = None) by reflexivity.
  assert (Hch : sinks (snd (fst added)) !! snd added
                = Some {| queue := make 1000; format := Request;
                          dest := 3%nat |}) by (vm_compute; reflexivity).
  destruct (requests_are_printed_in_the_order_served Demo.Stack Demo.where_
              Demo.clock later app [] [Demo.CallWriteHeader 100]
              Demo.request Demo.request (snd (fst added)) (snd added) _
              eq_refl Hret1 Hret2 Hch ltac:(cbn; lia))
    as (st1 & st2 & st3 & Hd1 & Hd2 & Hdrain & Hprinted & _).
  exists st1, st2, st3.
  split; [exact Hd1|]. split; [exact Hd2|].
  split; [exact Hdrain|exact Hprinted].
Defined.
